(** * Matching strategies of the PDF bounds matcher

    A shallow embedding of [backend/app/pdf_extractor.py] (the [TextBound]
    record and the extractor's loop), [backend/app/matching_strategies.py]
    (the three strategies and [MatchResult]),
    [backend/app/strategy_factory.py] (the factory) and the match and
    cleanup endpoints of [backend/app/main.py], followed by the properties
    of the matching core and of the code around it.

    Conventions of the embedding:
    - a Python [str] is a [string] whose characters are read as the code
      points U+0000..U+00FF;
    - a Python [int] is a [Z]; a Python [float] is an exact rational [Q]
      (no rounding, no NaN, no infinities);
    - a Python exception is a constructor of [exn]; code that can raise
      returns in the [result] monad;
    - [kwargs] is a [gmap string value]; dictionaries whose iteration order
      is observed are association lists in insertion order. *)

From Stdlib Require Import Ascii String QArith Lqa.
From stdpp Require Import gmap strings list.

Local Open Scope Z_scope.

(** ** Python values, exceptions and control flow *)

Inductive exn : Type :=
  | IndexError
  | TypeError
  | ValueError (msg : string).

Inductive result (A : Type) : Type :=
  | Ok (a : A)
  | Raise (e : exn).
Arguments Ok {A} a.
Arguments Raise {A} e.

#[global] Instance result_ret : MRet result := fun A a => Ok a.

#[global] Instance result_bind : MBind result := fun A B f m =>
  match m with
  | Ok a => f a
  | Raise e => Raise e
  end.

(** The dynamically typed values that reach the strategies as
    configuration: [None], an [int], a [float] or a [str]. *)
Inductive value : Type :=
  | VNone
  | VInt (z : Z)
  | VFloat (q : Q)
  | VStr (s : string).

(** [for x in xs: s = body(x, s)], an exception leaving the loop. *)
Fixpoint for_ {A S} (xs : list A) (body : A -> S -> result S) (s : S) : result S :=
  match xs with
  | [] => Ok s
  | x :: xs' => s' ← body x s; for_ xs' body s'
  end.

(** A list comprehension [[f(x) for x in xs]] whose element can raise. *)
Fixpoint comprehension {A B} (f : A -> result B) (xs : list A) : result (list B) :=
  match xs with
  | [] => Ok []
  | x :: xs' => y ← f x; ys ← comprehension f xs'; Ok (y :: ys)
  end.

(** [range(a, b)] and [range(b)]. *)
Definition range2 (a b : Z) : list Z := seqZ a (b - a).

Definition range (b : Z) : list Z := range2 0 b.

(** [l[i]]: a negative index counts from the end, an index outside
    [-len(l) .. len(l)-1] raises [IndexError]. *)
Definition getitem {A} (l : list A) (i : Z) : result A :=
  let n := Z.of_nat (length l) in
  let j := if i <? 0 then i + n else i in
  if (j <? 0) || (n <=? j) then Raise IndexError
  else match l !! Z.to_nat j with
       | Some a => Ok a
       | None => Raise IndexError
       end.

Definition len {A} (l : list A) : Z := Z.of_nat (length l).

(** [enumerate(l)] *)
Definition enumerate {A} (l : list A) : list (Z * A) :=
  zip (seqZ 0 (Z.of_nat (length l))) l.

(** ** Strings *)

(** [str.lower] on one character: A-Z, and the upper-case letters of the
    Latin-1 block (U+00C0..U+00D6, U+00D8..U+00DE), move up by 32. *)
Definition lower_char (c : ascii) : ascii :=
  let n := N_of_ascii c in
  if ((65 <=? n) && (n <=? 90) || (192 <=? n) && (n <=? 214)
      || (216 <=? n) && (n <=? 222))%N
  then ascii_of_N (n + 32) else c.

Fixpoint lower (s : string) : string :=
  match s with
  | EmptyString => EmptyString
  | String c s' => String (lower_char c) (lower s')
  end.

(** [str.isspace] on one character: TAB..CR, FS..US, space, NEL, NBSP. *)
Definition isspace (c : ascii) : bool :=
  let n := N_of_ascii c in
  ((9 <=? n) && (n <=? 13) || (28 <=? n) && (n <=? 32)
   || (n =? 133) || (n =? 160))%N.

(** [str.split()] without arguments: the maximal runs of characters that
    are not whitespace, in order. [word] is the run being read. *)
Fixpoint split_from (word : option string) (s : string) : list string :=
  match s with
  | EmptyString => match word with Some w => [w] | None => [] end
  | String c s' =>
      if isspace c
      then match word with
           | Some w => w :: split_from None s'
           | None => split_from None s'
           end
      else split_from (Some (default EmptyString word +:+ String c EmptyString)) s'
  end.

Definition split (s : string) : list string := split_from None s.

(** [sep.join(words)] *)
Fixpoint join (sep : string) (words : list string) : string :=
  match words with
  | [] => EmptyString
  | [w] => w
  | w :: ws => w +:+ sep +:+ join sep ws
  end.

(** ** The similarity score *)

(** Length of a longest common subsequence of two character lists. *)
Fixpoint lcs (a b : list ascii) : nat :=
  match a with
  | [] => 0%nat
  | x :: a' =>
      (fix lcs_row (b : list ascii) : nat :=
         match b with
         | [] => 0%nat
         | y :: b' =>
             if Ascii.eqb x y then S (lcs a' b')
             else Nat.max (lcs a' b) (lcs_row b')
         end) b
  end.

(** Modelled from the spec: [fuzz.ratio] belongs to the rapidfuzz library,
    which is not part of the repository. The spec fixes it as the standard
    normalised edit-distance ratio scaled to 0..100 with identical strings
    scoring 100; rapidfuzz computes it as the normalised Indel similarity:
    with [maximum = len(s1) + len(s2)] and [dist = maximum - 2 * lcs], the
    normalised distance is [dist / maximum] (0 when [maximum] is 0) and the
    score is [(1 - normalised distance) * 100]. *)
Definition ratio (s1 s2 : string) : Q :=
  let l1 := list_ascii_of_string s1 in
  let l2 := list_ascii_of_string s2 in
  let maximum := len l1 + len l2 in
  let dist := maximum - 2 * Z.of_nat (lcs l1 l2) in
  let norm_dist := if maximum =? 0 then 0%Q else (inject_Z dist / inject_Z maximum)%Q in
  ((1 - norm_dist) * 100)%Q.

(** [confidence >= threshold] with a [float] on the left: an [int] or a
    [float] on the right is compared by value, [None] and [str] are not
    ordered against a number. *)
Definition ge_float (x : Q) (v : value) : result bool :=
  match v with
  | VInt z => Ok (Qle_bool (inject_Z z) x)
  | VFloat q => Ok (Qle_bool q x)
  | VNone | VStr _ => Raise TypeError
  end.

Definition Qlt_bool (x y : Q) : bool := negb (Qle_bool y x).

(** A number produced by arithmetic on an [int] and a configuration value. *)
Inductive number : Type :=
  | Int (z : Z)
  | Float (q : Q).

(** [i - v] and [i + v] for an [int] [i]: the result is an [int] when [v]
    is one, a [float] when [v] is one; [None] and [str] are not numbers. *)
Definition int_sub (i : Z) (v : value) : result number :=
  match v with
  | VInt c => Ok (Int (i - c))
  | VFloat c => Ok (Float (inject_Z i - c))
  | VNone | VStr _ => Raise TypeError
  end.

Definition int_add (i : Z) (v : value) : result number :=
  match v with
  | VInt c => Ok (Int (i + c))
  | VFloat c => Ok (Float (inject_Z i + c))
  | VNone | VStr _ => Raise TypeError
  end.

(** [max(a, b)] returns [b] only when [b > a]; [min(a, b)] returns [b] only
    when [b < a]. The value returned keeps its own type. *)
Definition max_ (a : Z) (b : number) : number :=
  match b with
  | Int z => if a <? z then Int z else Int a
  | Float q => if Qlt_bool (inject_Z a) q then Float q else Int a
  end.

Definition min_ (a : Z) (b : number) : number :=
  match b with
  | Int z => if z <? a then Int z else Int a
  | Float q => if Qlt_bool q (inject_Z a) then Float q else Int a
  end.

(** [range(a, b)] accepts integers only. *)
Definition range_of (a b : number) : result (list Z) :=
  match a, b with
  | Int a, Int b => Ok (range2 a b)
  | _, _ => Raise TypeError
  end.

(** ** Data model *)

(** [pdf_extractor.TextBound] *)
Record TextBound : Type := {
  text : string;
  x0 : Q;
  y0 : Q;
  x1 : Q;
  y1 : Q;
  page : Z
}.

(** [matching_strategies.MatchResult] *)
Record MatchResult : Type := {
  text_bound : TextBound;
  confidence : Q;
  context : option string
}.

(** What a key of [MatchResult.to_dict()] holds: a plain value or the
    dictionary of the bound. *)
Inductive entry : Type :=
  | EValue (v : value)
  | EDict (d : gmap string value).

Definition TextBound_to_dict (self : TextBound) : gmap string value :=
  {[ "text" := VStr (text self);
     "x0" := VFloat (x0 self);
     "y0" := VFloat (y0 self);
     "x1" := VFloat (x1 self);
     "y1" := VFloat (y1 self);
     "page" := VInt (page self) ]}.

(** Truth value of an [Optional[str]]: [None] and the empty string are
    false. *)
Definition truthy (c : option string) : bool :=
  match c with
  | None => false
  | Some EmptyString => false
  | Some (String _ _) => true
  end.

Definition to_dict (self : MatchResult) : gmap string entry :=
  let result := {[ "match" := EDict (TextBound_to_dict (text_bound self));
                   "confidence" := EValue (VFloat (confidence self)) ]} in
  if truthy (context self)
  then <["context" := EValue (VStr (default EmptyString (context self)))]> result
  else result.

(** ** Strategies *)

Inductive MatchingStrategy : Type :=
  | ExactMatchingStrategy
  | FuzzyMatchingStrategy (threshold : value)
  | ContextualMatchingStrategy (context_window : value) (threshold : value).

(** [ExactMatchingStrategy.match] *)
Definition exact_match (entity : string) (text_bounds : list TextBound)
  : list MatchResult :=
  let entity_lower := lower entity in
  fold_left
    (fun results text_bound =>
       if String.eqb (lower (text text_bound)) entity_lower
       then results ++ [Build_MatchResult text_bound 100 None]
       else results)
    text_bounds [].

(** [FuzzyMatchingStrategy.match] *)
Definition fuzzy_match (threshold : value) (entity : string)
    (text_bounds : list TextBound) : result (list MatchResult) :=
  for_ text_bounds
    (fun text_bound results =>
       let confidence := ratio (lower entity) (lower (text text_bound)) in
       keep ← ge_float confidence threshold;
       if keep : bool
       then Ok (results ++ [Build_MatchResult text_bound confidence None])
       else Ok results)
    [].

(** The insertion-ordered dictionary [page_groups]: one entry per page, in
    order of first occurrence, holding the [(idx, text_bound)] pairs of
    that page. *)
Fixpoint group_append {A} (page : Z) (item : A)
    (page_groups : list (Z * list A)) : list (Z * list A) :=
  match page_groups with
  | [] => [(page, [item])]
  | (p, bounds_list) :: rest =>
      if p =? page then (p, bounds_list ++ [item]) :: rest
      else (p, bounds_list) :: group_append page item rest
  end.

Definition group_by_page (text_bounds : list TextBound)
  : list (Z * list (Z * TextBound)) :=
  fold_left
    (fun page_groups item => group_append (page item.2) item page_groups)
    (enumerate text_bounds) [].

(** The body of the inner loop of [ContextualMatchingStrategy.match], for
    the window starting at [i] of the group [bounds_list] of [page]. *)
Definition contextual_window (context_window threshold : value)
    (entity : string) (entity_words : list string)
    (page : Z) (bounds_list : list (Z * TextBound))
    (i : Z) (results : list MatchResult) : result (list MatchResult) :=
  window_words ←
    comprehension (fun j => b ← getitem bounds_list (i + j); Ok (lower (text b.2)))
                  (range (len entity_words));
  let window_text := join " " window_words in
  let confidence := ratio (lower entity) window_text in
  keep ← ge_float confidence threshold;
  if keep : bool then
    lo ← int_sub i context_window;
    let context_start := max_ 0 lo in
    hi ← int_add (i + len entity_words) context_window;
    let context_end := min_ (len bounds_list) hi in
    js ← range_of context_start context_end;
    context_words ←
      comprehension (fun j => b ← getitem bounds_list j; Ok (text b.2)) js;
    let context := join " " context_words in
    first_bound ← getitem bounds_list i;
    last_bound ← getitem bounds_list (i + len entity_words - 1);
    let merged_bound :=
      {| text := window_text;
         x0 := x0 first_bound.2;
         y0 := y0 first_bound.2;
         x1 := x1 last_bound.2;
         y1 := y1 last_bound.2;
         page := page |} in
    Ok (results ++ [Build_MatchResult merged_bound confidence (Some context)])
  else Ok results.

(** [ContextualMatchingStrategy.match] *)
Definition contextual_match (context_window threshold : value)
    (entity : string) (text_bounds : list TextBound)
  : result (list MatchResult) :=
  let entity_words := split (lower entity) in
  let page_groups := group_by_page text_bounds in
  for_ page_groups
    (fun group results =>
       let page := group.1 in
       let bounds_list := group.2 in
       for_ (range (len bounds_list - len entity_words + 1))
            (contextual_window context_window threshold entity entity_words
                               page bounds_list)
            results)
    [].

(** [strategy.match(entity, text_bounds)], dispatched on the class. *)
Definition match_ (self : MatchingStrategy) (entity : string)
    (text_bounds : list TextBound) : result (list MatchResult) :=
  match self with
  | ExactMatchingStrategy => Ok (exact_match entity text_bounds)
  | FuzzyMatchingStrategy threshold => fuzzy_match threshold entity text_bounds
  | ContextualMatchingStrategy context_window threshold =>
      contextual_match context_window threshold entity text_bounds
  end.

(** ** The factory *)

Inductive strategy_class : Type :=
  | ExactClass
  | FuzzyClass
  | ContextualClass.

(** The dictionary literal [strategies] of [create_strategy], in source
    order. *)
Definition strategies : list (string * strategy_class) :=
  [("exact", ExactClass); ("fuzzy", FuzzyClass); ("contextual", ContextualClass)].

Fixpoint dict_get {A} (key : string) (d : list (string * A)) : option A :=
  match d with
  | [] => None
  | (k, v) :: d' => if String.eqb k key then Some v else dict_get key d'
  end.

Definition keys {A} (d : list (string * A)) : list string := fst <$> d.

(** Calling a strategy class with keyword arguments: a keyword the
    constructor does not declare is a [TypeError], a declared keyword that
    is not passed takes the constructor's default. *)
Definition call (cls : strategy_class) (kwargs : gmap string value)
  : result MatchingStrategy :=
  match cls with
  | ExactClass =>
      if decide (dom kwargs ⊆ (∅ : gset string)) then Ok ExactMatchingStrategy
      else Raise TypeError
  | FuzzyClass =>
      if decide (dom kwargs ⊆ ({["threshold"]} : gset string))
      then Ok (FuzzyMatchingStrategy (default (VFloat 80) (kwargs !! "threshold")))
      else Raise TypeError
  | ContextualClass =>
      if decide (dom kwargs ⊆ ({["context_window"; "threshold"]} : gset string))
      then Ok (ContextualMatchingStrategy
                 (default (VInt 3) (kwargs !! "context_window"))
                 (default (VFloat 70) (kwargs !! "threshold")))
      else Raise TypeError
  end.

(** [MatchingStrategyFactory.create_strategy]. The result is [None] when
    the function falls off its end without a [return]. *)
Definition create_strategy (strategy_type : string) (kwargs : gmap string value)
  : result (option MatchingStrategy) :=
  match dict_get (lower strategy_type) strategies with
  | None =>
      Raise (ValueError ("Unknown strategy type: " +:+ strategy_type +:+ ". "
                         +:+ "Available types: " +:+ join ", " (keys strategies)))
  | Some strategy_class =>
      if String.eqb (lower strategy_type) "exact" then
        strategy ← call strategy_class ∅; Ok (Some strategy)
      else if String.eqb (lower strategy_type) "fuzzy" then
        let threshold := default (VFloat 80) (kwargs !! "threshold") in
        strategy ← call strategy_class {[ "threshold" := threshold ]};
        Ok (Some strategy)
      else if String.eqb (lower strategy_type) "contextual" then
        let context_window := default (VInt 3) (kwargs !! "context_window") in
        let threshold := default (VFloat 70) (kwargs !! "threshold") in
        strategy ← call strategy_class
                      {[ "context_window" := context_window;
                         "threshold" := threshold ]};
        Ok (Some strategy)
      else Ok None
  end.

(** The call of the factory in [main.match_entity]: both request fields
    are always passed as keywords, whatever they hold. *)
Definition request_strategy (strategy : string) (threshold context_window : value)
  : result (option MatchingStrategy) :=
  create_strategy strategy
    {[ "threshold" := threshold; "context_window" := context_window ]}.


(** ** Vocabulary of the properties *)

#[global] Instance Qle_decision (x y : Q) : Decision (x <= y)%Q.
Proof.
  destruct (Qle_bool x y) eqn:E.
  - left. by apply Qle_bool_iff.
  - right. rewrite <- Qle_bool_iff. congruence.
Defined.

(** A numeric threshold read as a rational. *)
Definition as_number (v : value) : option Q :=
  match v with
  | VInt z => Some (inject_Z z)
  | VFloat q => Some q
  | VNone | VStr _ => None
  end.

(** [sub in s] on strings. *)
Definition contains (sub s : string) : Prop :=
  ∃ pre post, s = pre +:+ sub +:+ post.

(** The score of a token against an entity, as both single-token
    strategies compute it. *)
Definition token_score (entity : string) (tb : TextBound) : Q :=
  ratio (lower entity) (lower (text tb)).

(** The result of a single-token strategy for a token kept with score
    [score]. *)
Definition token_result (score : Q) (tb : TextBound) : MatchResult :=
  {| text_bound := tb; confidence := score; context := None |}.

(** A confidence within 0..100 that is 100 only for a text equal to the
    entity up to case. *)
Definition sound_confidence (e : string) (r : MatchResult) : Prop :=
  (0 <= confidence r <= 100)%Q
  ∧ ((confidence r == 100)%Q → lower (text (text_bound r)) = lower e).

(** The pages of a token sequence, each once, in order of first
    occurrence. *)
Fixpoint first_pages (tokens : list TextBound) : list Z :=
  match tokens with
  | [] => []
  | tb :: rest => page tb :: filter (λ p, p ≠ page tb) (first_pages rest)
  end.

(** A page group with [h] applied to its items; with [h := snd] this
    forgets the indices that [enumerate] attached. *)
Definition map_group {A B} (h : A → B) (g : Z * list A) : Z * list B :=
  (g.1, h <$> g.2).

(** The tokens of one page, in input order. *)
Definition on_page (p : Z) (tokens : list TextBound) : list TextBound :=
  filter (λ tb, page tb = p) tokens.

(** The tokens of [group] at the indices [a .. b-1]. *)
Definition slice {A} (group : list A) (a b : nat) : list A :=
  take (b - a) (drop a group).

(** The window text: the lower-cased texts joined by single spaces. *)
Definition window_text_of (w : list TextBound) : string :=
  join " " ((λ tb, lower (text tb)) <$> w).

(** The bound synthesized for a window [w] of page [p], as the spec words
    it: from the first token's [(x0, y0)] to the last token's [(x1, y1)]. *)
Definition merged (p : Z) (w : list TextBound) : option TextBound :=
  first ← head w;
  final ← last w;
  Some {| text := window_text_of w;
          x0 := x0 first; y0 := y0 first;
          x1 := x1 final; y1 := y1 final;
          page := p |}.

(** The context of the window of [k] tokens starting at [i], as the spec
    words it: the original texts of the tokens at the indices
    [max(0, i - c) .. min(len(group), i + k + c) - 1], joined by spaces. *)
Definition context_of (c : Z) (k : nat) (group : list TextBound) (i : nat) : string :=
  let a := Z.max 0 (Z.of_nat i - c) in
  let b := Z.min (Z.of_nat (length group)) (Z.of_nat i + Z.of_nat k + c) in
  join " " (text <$> slice group (Z.to_nat a) (Z.to_nat b)).

(** What the spec makes of the window starting at [i]: a result when the
    score reaches the threshold, nothing otherwise. *)
Definition window_result (c : Z) (th : Q) (entity : string) (k : nat)
    (p : Z) (group : list TextBound) (i : nat) : option MatchResult :=
  let w := slice group i (i + k) in
  let score := ratio (lower entity) (window_text_of w) in
  if Qle_bool th score
  then bound ← merged p w;
       Some {| text_bound := bound;
               confidence := score;
               context := Some (context_of c k group i) |}
  else None.

(** What the code can emit for the window of [k] tokens starting at [i] of
    the group [group] of page [p]: the merged bound of the window, its
    score as confidence, a threshold that is a number the score reaches,
    and a context, which for an integer context window is the one of the
    spec. *)
Definition emitted (cw th : value) (entity : string) (k : nat) (p : Z)
    (group : list TextBound) (i : nat) (r : MatchResult) : Prop :=
  let w := slice group i (i + k) in
  merged p w = Some (text_bound r)
  ∧ confidence r = ratio (lower entity) (window_text_of w)
  ∧ (∃ q, as_number th = Some q ∧ (q <= confidence r)%Q)
  ∧ (∃ ctx, context r = Some ctx)
  ∧ (∀ c, cw = VInt c → context r = Some (context_of c k group i)).

(** The results of one page group: every start index [0 .. len - k], in
    ascending order. *)
Definition page_results (c : Z) (th : Q) (entity : string) (k : nat)
    (p : Z) (group : list TextBound) : list MatchResult :=
  omap (window_result c th entity k p group) (seq 0 (S (length group) - k)).

(** The results of the whole search, page by page. *)
Definition contextual_results (c : Z) (th : Q) (entity : string)
    (tokens : list TextBound) : list MatchResult :=
  let k := length (split (lower entity)) in
  p ← first_pages tokens;
  page_results c th entity k p (on_page p tokens).

(** ** Sample data: the fixture of the repository's tests *)

Definition token (s : string) (a b c d : Q) (p : Z) : TextBound :=
  {| text := s; x0 := a; y0 := b; x1 := c; y1 := d; page := p |}.

Definition sample_text_bounds : list TextBound :=
  [ token "Hello" 10 20 30 25 0;
    token "World" 35 20 55 25 0;
    token "Python" 10 30 40 35 0;
    token "Programming" 45 30 80 35 0;
    token "hello" 10 40 30 45 0 ].

(** Its first three tokens. *)
Definition sample_prefix : list TextBound :=
  [ token "Hello" 10 20 30 25 0;
    token "World" 35 20 55 25 0;
    token "Python" 10 30 40 35 0 ].

(** ** The PDF extractor *)

(** A word as [page.extract_words()] of pdfplumber returns it: the keys of
    the dictionary that the extractor reads. *)
Module Word.
Record t : Type := {
  text : string;
  x0 : Q;
  top : Q;
  x1 : Q;
  bottom : Q
}.
End Word.

(** [PDFExtractor.extract_text_with_bounds], over the words of the pages of
    the opened document ([pdf.pages], each with its [extract_words()]). *)
Definition extract_text_with_bounds (pages : list (list Word.t)) : list TextBound :=
  fold_left
    (fun text_bounds item =>
       let page_num := item.1 in
       let words := item.2 in
       fold_left
         (fun text_bounds word =>
            text_bounds ++ [ {| text := Word.text word;
                                x0 := Word.x0 word;
                                y0 := Word.top word;
                                x1 := Word.x1 word;
                                y1 := Word.bottom word;
                                page := page_num |} ])
         words text_bounds)
    (enumerate pages) [].

(** ** The match endpoint *)

(** [main.MatchRequest]: the validated request body. A field left out of
    the body takes the declared default; [threshold] and [context_window]
    are optional and can hold [None]. *)
Module MatchRequest.
Record t : Type := {
  entity : string;
  strategy : string;
  threshold : value;
  context_window : value
}.

(** The request built from a body in which only the given fields are
    present. *)
Definition make (entity : string) (strategy : option string)
    (threshold context_window : option value) : t :=
  {| entity := entity;
     strategy := default "exact" strategy;
     threshold := default (VFloat 80) threshold;
     context_window := default (VInt 3) context_window |}.
End MatchRequest.

(** What a request handler can see raised: an exception of the matching
    core, the [AttributeError] of a method call on [None], or any other
    exception, of which only the text [str(e)] is kept. *)
Inductive handler_exn : Type :=
  | CoreError (e : exn)
  | AttributeError
  | OtherError (str : string).

(** The [detail] of an [HTTPException]: a fixed or computed text, or the
    text "Error matching entity: " followed by [str(e)], kept as the
    exception [e] itself. *)
Inductive http_detail : Type :=
  | Detail (text : string)
  | ErrorMatching (e : handler_exn).

(** The outcome of [match_entity]: the response dictionary with its five
    keys, or an [HTTPException]. *)
Inductive response : Type :=
  | MatchResponse (file_id entity strategy : string)
                  (matches : list (gmap string entry)) (match_count : Z)
  | HTTPException (status_code : Z) (detail : http_detail).

(** [main.match_entity]. The global [pdf_storage] is passed in; reading
    the words of the stored file is [extract], which gives the text bounds
    or the exception that opening or parsing the file raised. *)
Definition match_entity (pdf_storage : gmap string string)
    (extract : string → list TextBound + handler_exn)
    (file_id : string) (request : MatchRequest.t) : response :=
  match pdf_storage !! file_id with
  | None => HTTPException 404 (Detail "PDF file not found")
  | Some pdf_path =>
      let attempt : response + handler_exn :=
        match extract pdf_path with
        | inr e => inr e
        | inl text_bounds =>
            match request_strategy (MatchRequest.strategy request)
                                   (MatchRequest.threshold request)
                                   (MatchRequest.context_window request) with
            | Raise e => inr (CoreError e)
            | Ok None => inr AttributeError
            | Ok (Some strategy) =>
                match match_ strategy (MatchRequest.entity request) text_bounds with
                | Raise e => inr (CoreError e)
                | Ok matches =>
                    inl (MatchResponse file_id
                                       (MatchRequest.entity request)
                                       (MatchRequest.strategy request)
                                       (to_dict <$> matches)
                                       (len matches))
                end
            end
        end in
      match attempt with
      | inl r => r
      | inr (CoreError (ValueError msg)) => HTTPException 400 (Detail msg)
      | inr e => HTTPException 500 (ErrorMatching e)
      end
  end.

(** ** The cleanup endpoint *)

(** The [detail] of an [HTTPException] of [cleanup_pdf]: a fixed text, or
    the text "Error cleaning up file: " followed by [str(e)], kept as the
    exception [e] itself. *)
Inductive cleanup_detail : Type :=
  | CleanupDetail (text : string)
  | ErrorCleaningUp (e : handler_exn).

(** The outcome of [cleanup_pdf]: the message dictionary or an
    [HTTPException]. *)
Inductive cleanup_response : Type :=
  | CleanupMessage (message : string)
  | CleanupException (status_code : Z) (detail : cleanup_detail).

(** [main.cleanup_pdf], with the global [pdf_storage] passed in and
    returned. [remove] stands for the two file-system calls
    [os.path.exists] and [os.remove] on the stored path: it gives the
    exception that they raised, if any. The entry is deleted only after
    they returned. *)
Definition cleanup_pdf (pdf_storage : gmap string string)
    (remove : string → option handler_exn) (file_id : string)
  : cleanup_response * gmap string string :=
  match pdf_storage !! file_id with
  | None => (CleanupException 404 (CleanupDetail "PDF file not found"), pdf_storage)
  | Some pdf_path =>
      match remove pdf_path with
      | Some e => (CleanupException 500 (ErrorCleaningUp e), pdf_storage)
      | None =>
          (CleanupMessage "PDF file cleaned up successfully",
           delete file_id pdf_storage)
      end
  end.

(** ** Vocabulary of the further properties *)

#[global] Instance Qeq_decision (x y : Q) : Decision (x == y)%Q := Qeq_dec x y.

(** Some character of [s] is whitespace. *)
Fixpoint has_space (s : string) : bool :=
  match s with
  | EmptyString => false
  | String a s' => isspace a || has_space s'
  end.

(** The tokens regrouped page by page, pages in order of first
    occurrence. *)
Definition by_pages (tokens : list TextBound) : list TextBound :=
  p ← first_pages tokens; on_page p tokens.

(** The bound of a one-token window: the token with its text lower-cased. *)
Definition lowered (tb : TextBound) : TextBound :=
  {| text := lower (text tb); x0 := x0 tb; y0 := y0 tb;
     x1 := x1 tb; y1 := y1 tb; page := page tb |}.

(** The bound that the extractor makes of a word of page [n]. *)
Definition word_bound (n : Z) (word : Word.t) : TextBound :=
  {| text := Word.text word; x0 := Word.x0 word; y0 := Word.top word;
     x1 := Word.x1 word; y1 := Word.bottom word; page := n |}.

(** A document of three pages, the second without words. *)
Definition sample_pages : list (list Word.t) :=
  [ [ {| Word.text := "Hello"; Word.x0 := 10; Word.top := 20;
         Word.x1 := 30; Word.bottom := 25 |} ];
    [];
    [ {| Word.text := "World"; Word.x0 := 35; Word.top := 20;
         Word.x1 := 55; Word.bottom := 25 |} ] ].

(** * Properties *)

(** ** Strings *)

Lemma lower_char_idemp (c : ascii) : lower_char (lower_char c) = lower_char c.
Proof. destruct c as [[] [] [] [] [] [] [] []]; reflexivity. Qed.

Lemma lower_idemp (s : string) : lower (lower s) = lower s.
Proof.
  induction s as [|c s IH]; simpl; [reflexivity|].
  by rewrite lower_char_idemp, IH.
Qed.

Lemma lower_app (s t : string) : lower (s +:+ t) = lower s +:+ lower t.
Proof. induction s as [|c s IH]; simpl; [reflexivity|]. by rewrite IH. Qed.

Lemma lower_join (sep : string) (ws : list string) :
  lower (join sep ws) = join (lower sep) (lower <$> ws).
Proof.
  induction ws as [|w ws IH]; [reflexivity|].
  destruct ws as [|w' ws]; [reflexivity|].
  change (join sep (w :: w' :: ws)) with (w +:+ sep +:+ join sep (w' :: ws)).
  rewrite !lower_app, IH. reflexivity.
Qed.

Lemma window_text_lower (w : list TextBound) :
  lower (window_text_of w) = window_text_of w.
Proof.
  unfold window_text_of. rewrite lower_join, <- list_fmap_compose.
  f_equal. apply list_fmap_ext. intros _ tb _. apply lower_idemp.
Qed.

(** ** The similarity score *)

Lemma lcs_nil_r (a : list ascii) : lcs a [] = 0%nat.
Proof. by destruct a. Qed.

Lemma lcs_cons (x y : ascii) (a b : list ascii) :
  lcs (x :: a) (y :: b) =
  if Ascii.eqb x y then S (lcs a b) else Nat.max (lcs a (y :: b)) (lcs (x :: a) b).
Proof. reflexivity. Qed.

Lemma lcs_bound (a b : list ascii) :
  (lcs a b ≤ length a ∧ lcs a b ≤ length b)%nat.
Proof.
  revert b. induction a as [|x a IHa]; intros b; [simpl; lia|].
  induction b as [|y b IHb]; [rewrite lcs_nil_r; simpl; lia|].
  rewrite lcs_cons. destruct (Ascii.eqb x y).
  - destruct (IHa b). simpl. lia.
  - destruct (IHa (y :: b)) as [H1 H2]. destruct IHb as [H3 H4].
    simpl in *. lia.
Qed.

Lemma lcs_diag (a : list ascii) : lcs a a = length a.
Proof.
  induction a as [|x a IH]; [reflexivity|].
  rewrite lcs_cons, Ascii.eqb_refl, IH. reflexivity.
Qed.

Lemma lcs_full (a b : list ascii) :
  lcs a b = length a → length a = length b → a = b.
Proof.
  revert b. induction a as [|x a IH]; intros [|y b] Hl Hn; try discriminate; [reflexivity|].
  rewrite lcs_cons in Hl. destruct (Ascii.eqb x y) eqn:E.
  - apply Ascii.eqb_eq in E. subst y. f_equal. apply IH; simpl in *; lia.
  - destruct (lcs_bound a (y :: b)) as [H1 _].
    destruct (lcs_bound (x :: a) b) as [_ H2].
    simpl in *. lia.
Qed.

Lemma str_inj (s t : string) :
  list_ascii_of_string s = list_ascii_of_string t → s = t.
Proof.
  intros H. rewrite <- (string_of_list_ascii_of_string s),
    <- (string_of_list_ascii_of_string t). by rewrite H.
Qed.

Lemma Qdiv_zero (d m : Z) :
  0 < m → (inject_Z d / inject_Z m == 0)%Q → d = 0.
Proof.
  intros Hm H. destruct m as [|p|p]; try lia.
  unfold Qeq, Qdiv, Qmult, Qinv, inject_Z in H. simpl in H. lia.
Qed.

(** The normalised distance lies between 0 and 1 and vanishes exactly on
    equal strings. *)
Lemma ratio_unfold (s1 s2 : string) :
  ∃ nd : Q, ratio s1 s2 = ((1 - nd) * 100)%Q ∧ (0 <= nd)%Q ∧ (nd <= 1)%Q
            ∧ (nd == 0 ↔ s1 = s2)%Q.
Proof.
  unfold ratio, len.
  set (l1 := list_ascii_of_string s1). set (l2 := list_ascii_of_string s2).
  destruct (lcs_bound l1 l2) as [Hb1 Hb2].
  destruct (Z.eqb_spec (Z.of_nat (length l1) + Z.of_nat (length l2)) 0) as [E|E].
  - eexists; split; [reflexivity|]. repeat split; try done.
    intros _. apply str_inj. fold l1 l2.
    destruct l1, l2; simpl in *; try lia. reflexivity.
  - eexists; split; [reflexivity|].
    set (m := Z.of_nat (length l1) + Z.of_nat (length l2)) in *.
    set (d := m - 2 * Z.of_nat (lcs l1 l2)).
    assert (Hm : 0 < m) by lia.
    assert (Hd : 0 <= d <= m) by (unfold d, m; lia).
    assert (HmQ : (0 < inject_Z m)%Q) by (rewrite Zlt_Qlt in Hm; exact Hm).
    split; [|split].
    + apply Qle_shift_div_l; [exact HmQ|]. rewrite Qmult_0_l.
      change 0%Q with (inject_Z 0). rewrite <- Zle_Qle. lia.
    + apply Qle_shift_div_r; [exact HmQ|]. rewrite Qmult_1_l.
      rewrite <- Zle_Qle. lia.
    + split.
      * intros H0. assert (Hd0 : d = 0) by exact (Qdiv_zero d m Hm H0).
        apply str_inj. fold l1 l2. unfold d, m in Hd0.
        assert (Hn : length l1 = length l2) by lia.
        apply lcs_full; [lia | exact Hn].
      * intros Heq. subst s2. subst l1 l2 d m. rewrite lcs_diag.
        replace (_ - _) with 0 by lia. reflexivity.
Qed.

Lemma ratio_range (s1 s2 : string) : (0 <= ratio s1 s2 <= 100)%Q.
Proof.
  destruct (ratio_unfold s1 s2) as (nd & -> & H0 & H1 & _). split; lra.
Qed.

Lemma ratio_100 (s1 s2 : string) : (ratio s1 s2 == 100)%Q ↔ s1 = s2.
Proof.
  destruct (ratio_unfold s1 s2) as (nd & -> & H0 & H1 & Heq).
  rewrite <- Heq. split; intros H; lra.
Qed.

(** ** Loops *)

(** A loop whose body only ever appends: the result is the initial list
    followed by what each element contributes, in order. *)
Lemma for_appending {A B} (f : A → list B) (xs : list A)
    (body : A → list B → result (list B)) (s : list B) :
  (∀ x t, x ∈ xs → body x t = Ok (t ++ f x)) →
  for_ xs body s = Ok (s ++ (xs ≫= f)).
Proof.
  revert s. induction xs as [|x xs IH]; intros s Hbody; simpl.
  - by rewrite app_nil_r.
  - rewrite (Hbody x s) by set_solver. simpl.
    rewrite IH by (intros; apply Hbody; set_solver).
    by rewrite <- app_assoc.
Qed.

(** A property kept by every successful round of the body holds when the
    loop returns. *)
Lemma for_invariant {A S} (P : S → Prop) (xs : list A)
    (body : A → S → result S) (s s' : S) :
  P s →
  (∀ x t t', x ∈ xs → P t → body x t = Ok t' → P t') →
  for_ xs body s = Ok s' → P s'.
Proof.
  revert s. induction xs as [|x xs IH]; intros s Hs Hbody Hrun; simpl in Hrun.
  - by inversion Hrun; subst.
  - destruct (body x s) as [t|e] eqn:E; simpl in Hrun; [|discriminate].
    apply (IH t); [|intros; eapply Hbody; eauto; set_solver|done].
    eapply Hbody; eauto. set_solver.
Qed.

(** ** Serialisation *)

Lemma to_dict_dom (r : MatchResult) :
  dom (to_dict r) =
  if truthy (context r) then ({["match"; "confidence"; "context"]} : gset string)
  else {["match"; "confidence"]}.
Proof.
  unfold to_dict. destruct (truthy (context r)).
  - rewrite !dom_insert_L, dom_singleton_L. set_solver.
  - rewrite !dom_insert_L, dom_singleton_L. set_solver.
Qed.

Lemma truthy_spec (c : option string) :
  truthy c = true ↔ ∃ s, c = Some s ∧ s ≠ EmptyString.
Proof.
  destruct c as [[|a s]|]; simpl; split; try done.
  - intros (s & [= <-] & Hs). done.
  - intros _. by eexists.
  - intros (s & [=] & _).
Qed.

(** ** The exact strategy *)

Lemma exact_match_from (e : string) (tokens : list TextBound) (acc : list MatchResult) :
  fold_left
    (fun results text_bound =>
       if String.eqb (lower (text text_bound)) (lower e)
       then results ++ [Build_MatchResult text_bound 100 None]
       else results)
    tokens acc
  = acc ++ (token_result 100 <$> filter (λ tb, lower (text tb) = lower e) tokens).
Proof.
  revert acc. induction tokens as [|tb tokens IH]; intros acc; simpl.
  - by rewrite app_nil_r.
  - rewrite IH, filter_cons.
    destruct (String.eqb_spec (lower (text tb)) (lower e)) as [E|E].
    + rewrite decide_True by done. by rewrite <- app_assoc.
    + by rewrite decide_False by done.
Qed.

Lemma exact_match_filter (e : string) (tokens : list TextBound) :
  exact_match e tokens =
  token_result 100 <$> filter (λ tb, lower (text tb) = lower e) tokens.
Proof. apply (exact_match_from e tokens []). Qed.

(** C2. The exact strategy returns, in input order, one result for each
    token whose lower-cased text equals the lower-cased entity and for no
    other token; each result carries the token's bound unchanged, the
    confidence 100.0 and no context. *)
Theorem exact_match_spec (e : string) (tokens : list TextBound) :
  match_ ExactMatchingStrategy e tokens =
  Ok ((λ tb, {| text_bound := tb; confidence := 100; context := None |})
        <$> filter (λ tb, lower (text tb) = lower e) tokens).
Proof. simpl. f_equal. apply exact_match_filter. Qed.

(** ** The fuzzy strategy *)

Lemma ge_float_number (x : Q) (v : value) (th : Q) :
  as_number v = Some th → ge_float x v = Ok (Qle_bool th x).
Proof. destruct v; simpl; intros [= <-]; reflexivity. Qed.

Lemma ge_float_true (x : Q) (v : value) :
  ge_float x v = Ok true → ∃ th, as_number v = Some th ∧ (th <= x)%Q.
Proof.
  destruct v; simpl; intros [= H]; eexists; (split; [reflexivity|]);
    by apply Qle_bool_iff.
Qed.

(** With a numeric threshold the loop is a filter. *)
Lemma fuzzy_match_number (v : value) (th : Q) (e : string) (tokens : list TextBound) :
  as_number v = Some th →
  fuzzy_match v e tokens =
  Ok ((λ tb, token_result (token_score e tb) tb)
        <$> filter (λ tb, (th <= token_score e tb)%Q) tokens).
Proof.
  intros Hv. unfold fuzzy_match.
  rewrite (for_appending
             (λ tb, if Qle_bool th (token_score e tb)
                    then [token_result (token_score e tb) tb] else [])).
  - simpl. f_equal. induction tokens as [|tb tokens IH]; [reflexivity|].
    change ((tb :: tokens) ≫= ?f) with (f tb ++ (tokens ≫= f)).
    rewrite filter_cons, IH.
    destruct (Qle_bool th (token_score e tb)) eqn:E.
    + rewrite decide_True by (by apply Qle_bool_iff). reflexivity.
    + rewrite decide_False; [reflexivity|].
      rewrite <- Qle_bool_iff. fold (token_score e tb). congruence.
  - intros tb t _. rewrite (ge_float_number _ _ _ Hv). simpl.
    fold (token_score e tb).
    destruct (Qle_bool th (token_score e tb)); [reflexivity|].
    by rewrite app_nil_r.
Qed.

(** Whatever the threshold is, a result of the fuzzy strategy is an input
    token with its score, without context, and the threshold is a number
    that the score reaches. *)
Lemma fuzzy_match_results (v : value) (e : string) (tokens : list TextBound)
    (rs : list MatchResult) :
  fuzzy_match v e tokens = Ok rs →
  Forall (λ r, text_bound r ∈ tokens
               ∧ confidence r = token_score e (text_bound r)
               ∧ context r = None
               ∧ ∃ th, as_number v = Some th ∧ (th <= confidence r)%Q) rs.
Proof.
  unfold fuzzy_match. apply for_invariant; [constructor|].
  intros tb t t' Hin Ht Hbody.
  destruct (ge_float _ v) as [[]|] eqn:E; simpl in Hbody; inversion Hbody; subst; [|done].
  apply Forall_app. split; [done|]. constructor; [|constructor].
  simpl. repeat split; try done. by apply ge_float_true.
Qed.

(** C4, amended. For a numeric threshold the fuzzy strategy returns, in
    input order and without re-ranking, one result for each token whose
    score reaches the threshold; every confidence lies between the
    threshold and 100; and when the threshold is at most 100, a token equal
    to the entity up to case gives a result of confidence exactly 100.0. *)
Theorem fuzzy_match_spec (v : value) (th : Q) (e : string)
    (tokens : list TextBound) :
  as_number v = Some th →
  ∃ rs, match_ (FuzzyMatchingStrategy v) e tokens = Ok rs
    ∧ rs = (λ tb, {| text_bound := tb; confidence := token_score e tb;
                     context := None |})
             <$> filter (λ tb, (th <= token_score e tb)%Q) tokens
    ∧ (∀ r, r ∈ rs → (th <= confidence r <= 100)%Q)
    ∧ ((th <= 100)%Q →
       (∃ tb, tb ∈ tokens ∧ lower (text tb) = lower e) →
       ∃ r, r ∈ rs ∧ (confidence r == 100)%Q).
Proof.
  intros Hv. eexists. split; [apply (fuzzy_match_number v th e tokens Hv)|].
  split; [reflexivity|]. split.
  - intros r (tb & -> & Htb)%list_elem_of_fmap.
    apply list_elem_of_filter in Htb as [Hth _]. simpl.
    split; [done|]. apply ratio_range.
  - intros Hth (tb & Hin & Heq).
    assert (Hs : (token_score e tb == 100)%Q)
      by (unfold token_score; apply ratio_100; done).
    exists (token_result (token_score e tb) tb). split; [|done].
    apply list_elem_of_fmap. exists tb. split; [reflexivity|].
    apply list_elem_of_filter. split; [|done]. by rewrite Hs.
Qed.

Lemma fuzzy_match_spec_witness :
  as_number (VFloat 80) = Some 80%Q ∧
  ∃ rs, match_ (FuzzyMatchingStrategy (VFloat 80)) "World" sample_text_bounds = Ok rs
    ∧ rs = (λ tb, {| text_bound := tb; confidence := token_score "World" tb;
                     context := None |})
             <$> filter (λ tb, (80 <= token_score "World" tb)%Q) sample_text_bounds
    ∧ (∀ r, r ∈ rs → (80 <= confidence r <= 100)%Q)
    ∧ ((80 <= 100)%Q →
       (∃ tb, tb ∈ sample_text_bounds ∧ lower (text tb) = lower "World") →
       ∃ r, r ∈ rs ∧ (confidence r == 100)%Q).
Proof.
  split; [reflexivity|].
  apply (fuzzy_match_spec (VFloat 80) 80 "World" sample_text_bounds).
  reflexivity.
Defined.

(** C4 as first stated fails above 100: with the threshold 101 the token
    "Hello" equals the entity "hello" up to case, and nothing is returned. *)
Lemma fuzzy_match_exact_hit_counterexample :
  ∃ rs, match_ (FuzzyMatchingStrategy (VFloat 101)) "hello"
               [token "Hello" 10 20 30 25 0] = Ok rs
    ∧ (∃ tb, tb ∈ [token "Hello" 10 20 30 25 0] ∧ lower (text tb) = lower "hello")
    ∧ ¬ ∃ r, r ∈ rs ∧ (confidence r == 100)%Q.
Proof.
  exists []. split; [reflexivity|]. split.
  - eexists. split; [apply list_elem_of_here|reflexivity].
  - intros (r & Hr & _). by apply not_elem_of_nil in Hr.
Qed.

(** C10. The dictionary of a result has the key "context" exactly when the
    context is a string that is not empty; without it the keys are "match"
    and "confidence", which is the case of every result of the exact and
    of the fuzzy strategy. *)
Theorem to_dict_context_key (r : MatchResult) :
  ("context" ∈ dom (to_dict r) ↔ ∃ c, context r = Some c ∧ c ≠ EmptyString)
  ∧ (∀ c, context r = Some c → c ≠ EmptyString →
          to_dict r !! "context" = Some (EValue (VStr c))
          ∧ dom (to_dict r) = {["match"; "confidence"; "context"]})
  ∧ (context r = Some EmptyString → dom (to_dict r) = {["match"; "confidence"]})
  ∧ (context r = None → dom (to_dict r) = {["match"; "confidence"]})
  ∧ (∀ e tokens rs, match_ ExactMatchingStrategy e tokens = Ok rs → r ∈ rs →
       dom (to_dict r) = {["match"; "confidence"]})
  ∧ (∀ v e tokens rs, match_ (FuzzyMatchingStrategy v) e tokens = Ok rs → r ∈ rs →
       dom (to_dict r) = {["match"; "confidence"]}).
Proof.
  assert (Hnone : context r = None → dom (to_dict r) = {["match"; "confidence"]}).
  { intros H. rewrite to_dict_dom, H. reflexivity. }
  split; [|split; [|split; [|split; [|split]]]].
  - rewrite <- truthy_spec, to_dict_dom.
    destruct (truthy (context r)); split; done.
  - intros c Hc Hne. assert (Ht : truthy (context r) = true)
      by (apply truthy_spec; eauto).
    rewrite to_dict_dom. unfold to_dict. rewrite Ht, Hc. simpl.
    split; [apply lookup_insert_eq | reflexivity].
  - intros H. rewrite to_dict_dom, H. reflexivity.
  - exact Hnone.
  - intros e tokens rs Hm Hr. apply Hnone.
    injection Hm as <-. rewrite exact_match_filter in Hr.
    apply list_elem_of_fmap in Hr as (tb & -> & _). reflexivity.
  - intros v e tokens rs Hm Hr. apply Hnone. simpl in Hm.
    apply fuzzy_match_results in Hm.
    rewrite Forall_forall in Hm. by destruct (Hm r Hr) as (_ & _ & ? & _).
Qed.

(** ** The factory *)

Lemma append_assoc (a b c : string) : (a +:+ b) +:+ c = a +:+ b +:+ c.
Proof.
  induction a as [|x a IH]; [reflexivity|].
  change (String x ((a +:+ b) +:+ c) = String x (a +:+ b +:+ c)). by f_equal.
Qed.

Lemma contains_middle (pre sub post : string) : contains sub (pre +:+ sub +:+ post).
Proof. by exists pre, post. Qed.

Lemma dict_get_strategies (key : string) :
  dict_get key strategies =
  if decide (key = "exact") then Some ExactClass
  else if decide (key = "fuzzy") then Some FuzzyClass
  else if decide (key = "contextual") then Some ContextualClass
  else None.
Proof.
  unfold strategies. cbn [dict_get].
  repeat match goal with
         | |- context [String.eqb ?a key] =>
             destruct (String.eqb_spec a key); [subst key; reflexivity|]
         end.
  repeat (case_decide; [congruence|]).
  reflexivity.
Qed.

Lemma create_strategy_exact (name : string) (kwargs : gmap string value) :
  lower name = "exact" → create_strategy name kwargs = Ok (Some ExactMatchingStrategy).
Proof. intros H. unfold create_strategy. rewrite H. reflexivity. Qed.

Lemma create_strategy_fuzzy (name : string) (kwargs : gmap string value) :
  lower name = "fuzzy" →
  create_strategy name kwargs =
  Ok (Some (FuzzyMatchingStrategy (default (VFloat 80) (kwargs !! "threshold")))).
Proof.
  intros H. unfold create_strategy. rewrite H. simpl.
  rewrite decide_True by (rewrite dom_singleton_L; set_solver).
  simpl. by rewrite lookup_singleton_eq.
Qed.

Lemma create_strategy_contextual (name : string) (kwargs : gmap string value) :
  lower name = "contextual" →
  create_strategy name kwargs =
  Ok (Some (ContextualMatchingStrategy
              (default (VInt 3) (kwargs !! "context_window"))
              (default (VFloat 70) (kwargs !! "threshold")))).
Proof.
  intros H. unfold create_strategy. rewrite H. simpl.
  rewrite decide_True by (rewrite dom_insert_L, dom_singleton_L; set_solver).
  simpl. rewrite lookup_insert_eq, lookup_insert_ne by done.
  by rewrite lookup_singleton_eq.
Qed.

Lemma create_strategy_unknown (name : string) (kwargs : gmap string value) :
  lower name ∉ keys strategies →
  create_strategy name kwargs =
  Raise (ValueError ("Unknown strategy type: " +:+ name
                     +:+ ". Available types: exact, fuzzy, contextual")).
Proof.
  intros H. unfold create_strategy. rewrite dict_get_strategies.
  repeat match goal with
         | |- context [decide (lower name = ?k)] =>
             destruct (decide (lower name = k)) as [E|?];
             [exfalso; apply H; rewrite E; unfold keys, strategies; simpl;
              set_solver|]
         end.
  reflexivity.
Qed.

(** C8. The strategy name is looked up by its lower-casing. A name whose
    lower-casing is none of "exact", "fuzzy", "contextual" raises a
    [ValueError] whose message contains the name as given and the valid
    names; a recognized name yields a strategy, and the same one for every
    spelling that lower-cases to it. *)
Theorem create_strategy_name (name : string) (kwargs : gmap string value) :
  (lower name ∉ keys strategies →
     ∃ msg, create_strategy name kwargs = Raise (ValueError msg)
       ∧ contains name msg
       ∧ contains (join ", " (keys strategies)) msg
       ∧ ∀ k, k ∈ keys strategies → contains k msg)
  ∧ (lower name ∈ keys strategies →
     (∃ s, create_strategy name kwargs = Ok (Some s))
     ∧ ∀ name', lower name' = lower name →
         create_strategy name' kwargs = create_strategy name kwargs)
  ∧ keys strategies = ["exact"; "fuzzy"; "contextual"]
  ∧ create_strategy "FUZZY" {[ "threshold" := VFloat 85 ]}
    = create_strategy "fuzzy" {[ "threshold" := VFloat 85 ]}.
Proof.
  split; [|split; [|split; reflexivity]].
  - intros H. eexists. split; [apply (create_strategy_unknown _ _ H)|].
    split; [apply contains_middle|]. split.
    + exists ("Unknown strategy type: " +:+ name +:+ ". Available types: "), "".
      rewrite !append_assoc. reflexivity.
    + intros k Hk. unfold keys, strategies in Hk. simpl in Hk.
      apply elem_of_cons in Hk as [->|Hk]; [|apply elem_of_cons in Hk as [->|Hk]];
        [| |apply list_elem_of_singleton in Hk as ->].
      * exists ("Unknown strategy type: " +:+ name +:+ ". Available types: "),
          ", fuzzy, contextual".
        rewrite !append_assoc. reflexivity.
      * exists ("Unknown strategy type: " +:+ name +:+ ". Available types: exact, "),
          ", contextual".
        rewrite !append_assoc. reflexivity.
      * exists ("Unknown strategy type: " +:+ name
                +:+ ". Available types: exact, fuzzy, "), "".
        rewrite !append_assoc. reflexivity.
  - intros H. unfold keys, strategies in H. simpl in H.
    apply elem_of_cons in H as [H|H]; [|apply elem_of_cons in H as [H|H]];
      [| |apply list_elem_of_singleton in H].
    + split; [eexists; by apply create_strategy_exact|].
      intros name' H'. rewrite !create_strategy_exact; congruence.
    + split; [eexists; by apply create_strategy_fuzzy|].
      intros name' H'. rewrite !create_strategy_fuzzy; congruence.
    + split; [eexists; by apply create_strategy_contextual|].
      intros name' H'. rewrite !create_strategy_contextual; congruence.
Qed.

(** C9. A default of the factory is used only for a key that is absent
    from the keyword arguments: a value stored under "threshold" or
    "context_window", [None] included, reaches the strategy unchanged, and
    80.0, 70.0 and 3 stand in for missing keys only. *)
Theorem create_strategy_defaults (name : string) (kwargs : gmap string value) :
  (lower name = "fuzzy" →
     ∃ th, create_strategy name kwargs = Ok (Some (FuzzyMatchingStrategy th))
       ∧ (∀ v, kwargs !! "threshold" = Some v → th = v)
       ∧ (kwargs !! "threshold" = None → th = VFloat 80))
  ∧ (lower name = "contextual" →
     ∃ cw th,
       create_strategy name kwargs = Ok (Some (ContextualMatchingStrategy cw th))
       ∧ (∀ v, kwargs !! "context_window" = Some v → cw = v)
       ∧ (kwargs !! "context_window" = None → cw = VInt 3)
       ∧ (∀ v, kwargs !! "threshold" = Some v → th = v)
       ∧ (kwargs !! "threshold" = None → th = VFloat 70))
  ∧ (∀ th cw, lower name = "fuzzy" →
       request_strategy name th cw = Ok (Some (FuzzyMatchingStrategy th)))
  ∧ (∀ th cw, lower name = "contextual" →
       request_strategy name th cw = Ok (Some (ContextualMatchingStrategy cw th))).
Proof.
  split; [|split; [|split]].
  - intros H. eexists. split; [by apply create_strategy_fuzzy|].
    split; [intros v ->|intros ->]; reflexivity.
  - intros H. eexists _, _. split; [by apply create_strategy_contextual|].
    repeat split; try (intros v ->); try (intros ->); reflexivity.
  - intros th cw H. unfold request_strategy.
    rewrite create_strategy_fuzzy by done. by rewrite lookup_insert_eq.
  - intros th cw H. unfold request_strategy.
    rewrite create_strategy_contextual by done.
    rewrite lookup_insert_eq, lookup_insert_ne by done.
    by rewrite lookup_singleton_eq.
Qed.

(** ** Indexing and comprehensions *)

Lemma bind_Ok {A B} (m : result A) (f : A → result B) (y : B) :
  m ≫= f = Ok y → ∃ x, m = Ok x ∧ f x = Ok y.
Proof. destruct m as [x|e]; simpl; [eauto|discriminate]. Qed.

Lemma getitem_lookup {A} (l : list A) (n : nat) (x : A) :
  l !! n = Some x → getitem l (Z.of_nat n) = Ok x.
Proof.
  intros H. pose proof (lookup_lt_Some _ _ _ H) as Hn. unfold getitem.
  destruct (Z.ltb_spec (Z.of_nat n) 0); [lia|].
  destruct (Z.ltb_spec (Z.of_nat n) 0); [lia|].
  destruct (Z.leb_spec (Z.of_nat (length l)) (Z.of_nat n)); [lia|].
  simpl. by rewrite Nat2Z.id, H.
Qed.

Lemma comprehension_fmap {A B C} (f : B → result C) (g : A → B) (xs : list A) :
  comprehension f (g <$> xs) = comprehension (f ∘ g) xs.
Proof.
  induction xs as [|x xs IH]; [reflexivity|].
  rewrite fmap_cons. cbn [comprehension]. by rewrite IH.
Qed.

(** Reading the [m] items from index [a] on, all in range, and applying
    [h] to each gives [h] mapped over that slice. *)
Lemma comprehension_getitem {A B} (h : A → B) (l : list A) (m a : nat) :
  (a + m ≤ length l)%nat →
  comprehension (λ j, b ← getitem l j; Ok (h b)) (seqZ (Z.of_nat a) (Z.of_nat m))
  = Ok (h <$> take m (drop a l)).
Proof.
  revert a. induction m as [|m IH]; intros a Hlen; [reflexivity|].
  rewrite seqZ_cons by lia.
  destruct (lookup_lt_is_Some_2 l a) as [x Hx]; [lia|].
  cbn [comprehension]. rewrite (getitem_lookup _ _ _ Hx). simpl.
  replace (Z.succ (Z.of_nat a)) with (Z.of_nat (S a)) by lia.
  replace (Z.pred (Z.of_nat (S m))) with (Z.of_nat m) by lia.
  rewrite IH by lia. simpl.
  by rewrite (drop_S _ _ _ Hx).
Qed.

Lemma max_int (a z : Z) : max_ a (Int z) = Int (Z.max a z).
Proof. simpl. destruct (Z.ltb_spec a z); f_equal; lia. Qed.

Lemma min_int (a z : Z) : min_ a (Int z) = Int (Z.min a z).
Proof. simpl. destruct (Z.ltb_spec z a); f_equal; lia. Qed.

(** ** Confidence of the results *)

Lemma contextual_window_sound (cw th : value) (e : string) (ew : list string)
    (p : Z) (bl : list (Z * TextBound)) (i : Z) (t t' : list MatchResult) :
  Forall (sound_confidence e) t →
  contextual_window cw th e ew p bl i t = Ok t' →
  Forall (sound_confidence e) t'.
Proof.
  intros Ht Hbody. unfold contextual_window in Hbody.
  apply bind_Ok in Hbody as (ws & _ & Hbody).
  apply bind_Ok in Hbody as ([] & _ & Hbody); [|by inversion Hbody; subst].
  repeat (apply bind_Ok in Hbody as (? & _ & Hbody)).
  inversion Hbody; subst. apply Forall_app. split; [done|].
  constructor; [|constructor]. split; simpl.
  - apply ratio_range.
  - intros H%ratio_100. by rewrite <- H, lower_idemp.
Qed.

Lemma contextual_match_sound (cw th : value) (e : string)
    (tokens : list TextBound) (rs : list MatchResult) :
  contextual_match cw th e tokens = Ok rs → Forall (sound_confidence e) rs.
Proof.
  unfold contextual_match.
  apply (for_invariant (Forall (sound_confidence e))); [constructor|].
  intros group t t' _ Ht.
  apply (for_invariant (Forall (sound_confidence e))); [done|].
  intros i u u' _. apply contextual_window_sound.
Qed.

(** C3. Whatever the strategy and its configuration, every result that
    [match] returns has a confidence between 0 and 100, and a confidence of
    exactly 100.0 only when the matched text (the token text for the exact
    and the fuzzy strategy, the window text for the contextual one) equals
    the entity up to case. *)
Theorem match_confidence (self : MatchingStrategy) (e : string)
    (tokens : list TextBound) (rs : list MatchResult) (r : MatchResult) :
  match_ self e tokens = Ok rs →
  r ∈ rs →
  (0 <= confidence r <= 100)%Q
  ∧ ((confidence r == 100)%Q → lower (text (text_bound r)) = lower e).
Proof.
  intros Hm Hr. destruct self as [|th|cw th]; simpl in Hm.
  - injection Hm as <-. rewrite exact_match_filter in Hr.
    apply list_elem_of_fmap in Hr as (tb & -> & Htb).
    apply list_elem_of_filter in Htb as [Heq _]. simpl.
    split; [split; discriminate | done].
  - apply fuzzy_match_results in Hm. rewrite Forall_forall in Hm.
    destruct (Hm r Hr) as (_ & -> & _). unfold token_score. split.
    + apply ratio_range.
    + intros H%ratio_100. done.
  - apply contextual_match_sound in Hm. rewrite Forall_forall in Hm.
    exact (Hm r Hr).
Qed.

Lemma match_confidence_witness :
  ∃ rs r,
    match_ (ContextualMatchingStrategy (VInt 3) (VFloat 90)) "Python"
           sample_text_bounds = Ok rs
    ∧ r ∈ rs
    ∧ (0 <= confidence r <= 100)%Q
    ∧ ((confidence r == 100)%Q → lower (text (text_bound r)) = lower "Python").
Proof.
  eexists _, _.
  assert (Hm : match_ (ContextualMatchingStrategy (VInt 3) (VFloat 90))
                 "Python" sample_text_bounds
               = Ok [ {| text_bound := token "python" 10 30 40 35 0;
                         confidence := 1200 # 12;
                         context := Some "Hello World Python Programming hello" |} ])
    by (vm_compute; reflexivity).
  split; [exact Hm|]. split; [apply list_elem_of_here|].
  apply (match_confidence _ _ _ _ _ Hm). apply list_elem_of_here.
Defined.

(** ** Page groups *)

Lemma elem_of_first_pages (p : Z) (tokens : list TextBound) :
  p ∈ first_pages tokens ↔ ∃ tb, tb ∈ tokens ∧ page tb = p.
Proof.
  induction tokens as [|t tokens IH]; simpl.
  - split; [by intros ?%not_elem_of_nil | by intros (? & ?%not_elem_of_nil & _)].
  - rewrite elem_of_cons, list_elem_of_filter, IH. split.
    + intros [->|(_ & tb & Hin & Hp)]; [exists t | exists tb];
        (split; [|done]); [apply list_elem_of_here | by apply list_elem_of_further].
    + intros (tb & [->|Hin]%elem_of_cons & <-); [by left|].
      destruct (decide (page tb = page t)); [by left|right]. eauto.
Qed.

Lemma NoDup_first_pages (tokens : list TextBound) : NoDup (first_pages tokens).
Proof.
  induction tokens as [|t tokens IH]; simpl; [constructor|].
  apply NoDup_cons. split; [|by apply NoDup_filter].
  by intros [? _]%list_elem_of_filter.
Qed.

Lemma first_pages_snoc (tokens : list TextBound) (tb : TextBound) :
  first_pages (tokens ++ [tb]) =
  first_pages tokens ++ (if decide (page tb ∈ first_pages tokens) then [] else [page tb]).
Proof.
  induction tokens as [|t tokens IH]; cbn [first_pages app].
  - rewrite decide_False by apply not_elem_of_nil. reflexivity.
  - rewrite IH, filter_app. cbn [app]. f_equal. f_equal.
    destruct (decide (page tb ∈ page t :: filter (λ p, p ≠ page t) (first_pages tokens)))
      as [H2|H2];
      destruct (decide (page tb ∈ first_pages tokens)) as [H1|H1].
    + reflexivity.
    + apply filter_singleton_False; [exact []|]. intros Hne.
      apply elem_of_cons in H2 as [?|[_ ?]%list_elem_of_filter]; done.
    + exfalso. apply H2. destruct (decide (page tb = page t)) as [->|Hne].
      * apply list_elem_of_here.
      * apply list_elem_of_further, list_elem_of_filter. done.
    + apply filter_singleton_True; [exact []|]. intros E. apply H2.
      rewrite E. apply list_elem_of_here.
Qed.

Lemma on_page_snoc (p : Z) (tokens : list TextBound) (tb : TextBound) :
  on_page p (tokens ++ [tb]) =
  on_page p tokens ++ (if decide (page tb = p) then [tb] else []).
Proof. unfold on_page. by rewrite filter_app, filter_singleton. Qed.

Lemma on_page_absent (p : Z) (tokens : list TextBound) :
  p ∉ first_pages tokens → on_page p tokens = [].
Proof.
  intros H. unfold on_page. induction tokens as [|t tokens IH]; [reflexivity|].
  rewrite filter_cons. rewrite elem_of_first_pages in H.
  rewrite decide_False by (intros E; apply H; exists t; set_solver).
  apply IH. rewrite elem_of_first_pages. intros (tb & ? & ?). apply H.
  exists tb. set_solver.
Qed.

Lemma group_append_fmap {A B} (h : A → B) (p : Z) (x : A) (G : list (Z * list A)) :
  map_group h <$> group_append p x G
  = group_append p (h x) (map_group h <$> G).
Proof.
  induction G as [|[q l] G IH]; [reflexivity|].
  cbn [group_append fmap list_fmap]. unfold map_group at 2. cbn [fst snd].
  destruct (q =? p).
  - cbn [fmap list_fmap]. unfold map_group at 1. cbn [fst snd].
    by rewrite fmap_app.
  - cbn [fmap list_fmap]. f_equal. exact IH.
Qed.

(** Appending a token to the groups of the tokens read so far gives the
    groups of the extended sequence. *)
Lemma group_append_pages (ps : list Z) (tokens : list TextBound) (tb : TextBound) :
  NoDup ps →
  group_append (page tb) tb ((λ q, (q, on_page q tokens)) <$> ps) =
  ((λ q, (q, on_page q (tokens ++ [tb]))) <$> ps)
  ++ (if decide (page tb ∈ ps) then [] else [(page tb, [tb])]).
Proof.
  induction ps as [|q ps IH]; intros Hnd.
  - rewrite decide_False by apply not_elem_of_nil. reflexivity.
  - apply NoDup_cons in Hnd as [Hq Hnd].
    cbn [fmap list_fmap group_append]. destruct (Z.eqb_spec q (page tb)) as [E|E].
    + rewrite decide_True by (rewrite E; apply list_elem_of_here).
      rewrite app_nil_r. cbn [fmap list_fmap]. f_equal.
      * rewrite on_page_snoc, decide_True by done. reflexivity.
      * apply list_fmap_ext. intros _ q' Hq'%list_elem_of_lookup_2.
        rewrite on_page_snoc, decide_False, app_nil_r; [reflexivity|].
        intros E'. apply Hq. by rewrite E, E'.
    + rewrite IH by done. cbn [fmap list_fmap app].
      assert (Hq' : on_page q (tokens ++ [tb]) = on_page q tokens).
      { rewrite on_page_snoc. destruct (decide (page tb = q)); [congruence|].
        apply app_nil_r. }
      rewrite Hq'. f_equal. f_equal.
      destruct (decide (page tb ∈ ps)) as [H1|H1];
        destruct (decide (page tb ∈ q :: ps)) as [H2|H2]; try reflexivity.
      * exfalso. apply H2. by apply list_elem_of_further.
      * exfalso. apply elem_of_cons in H2 as [?|?]; [congruence|done].
Qed.

Lemma fold_group_append (items : list (Z * TextBound)) :
  map_group snd
    <$> fold_left (λ page_groups item, group_append (page item.2) item page_groups)
                  items []
  = (λ p, (p, on_page p (snd <$> items))) <$> first_pages (snd <$> items).
Proof.
  induction items as [|x items IH] using rev_ind; [reflexivity|].
  rewrite fold_left_app. cbn [fold_left].
  rewrite group_append_fmap, IH, fmap_app. cbn [fmap list_fmap].
  rewrite group_append_pages by apply NoDup_first_pages.
  rewrite first_pages_snoc, fmap_app. f_equal.
  case_decide as H; [reflexivity|]. cbn [fmap list_fmap]. f_equal. f_equal.
  rewrite on_page_snoc, decide_True by done.
  rewrite on_page_absent by done. reflexivity.
Qed.

Lemma enumerate_snd {A} (l : list A) : snd <$> enumerate l = l.
Proof. unfold enumerate. apply snd_zip. rewrite length_seqZ. lia. Qed.

(** The groups are, page by page in order of first occurrence, the tokens
    of the page in input order. *)
Lemma group_by_page_spec (tokens : list TextBound) :
  map_group snd <$> group_by_page tokens
  = (λ p, (p, on_page p tokens)) <$> first_pages tokens.
Proof.
  unfold group_by_page. rewrite fold_group_append, enumerate_snd. reflexivity.
Qed.

(** ** One window of the contextual search *)

Lemma bind_Ok_l {A B} (x : A) (f : A → result B) : Ok x ≫= f = f x.
Proof. reflexivity. Qed.

Lemma slice_fmap {A B} (h : A → B) (l : list A) (a b : nat) :
  slice (h <$> l) a b = h <$> slice l a b.
Proof. unfold slice. by rewrite fmap_take, fmap_drop. Qed.

Lemma length_slice {A} (l : list A) (a b : nat) :
  (b ≤ length l)%nat → length (slice l a b) = (b - a)%nat.
Proof. intros H. unfold slice. rewrite length_take, length_drop. lia. Qed.

Lemma slice_lookup {A} (l : list A) (a b i : nat) :
  (i < b - a)%nat → slice l a b !! i = l !! (a + i)%nat.
Proof. intros H. unfold slice. by rewrite lookup_take_lt, lookup_drop. Qed.

(** Reading the items at the indices [a .. b-1], all in range. *)
Lemma comprehension_slice {A B} (h : A → B) (l : list A) (a b : Z) :
  0 ≤ a → b ≤ len l →
  comprehension (λ j, x ← getitem l j; Ok (h x)) (range2 a b)
  = Ok (h <$> slice l (Z.to_nat a) (Z.to_nat b)).
Proof.
  intros Ha Hb. unfold range2, slice, len in *.
  destruct (Z.le_gt_cases b a) as [Hle|Hgt].
  - rewrite seqZ_nil by lia.
    replace (Z.to_nat b - Z.to_nat a)%nat with 0%nat by lia. reflexivity.
  - replace a with (Z.of_nat (Z.to_nat a)) at 1 2 by lia.
    replace (b - Z.of_nat (Z.to_nat a))
      with (Z.of_nat (Z.to_nat b - Z.to_nat a)) by lia.
    apply comprehension_getitem. lia.
Qed.

(** The same, read through an offset as the window comprehension does. *)
Lemma comprehension_window {A B} (h : A → B) (l : list A) (i k : Z) :
  0 ≤ i → 0 ≤ k → i + k ≤ len l →
  comprehension (λ j, x ← getitem l (i + j); Ok (h x)) (range k)
  = Ok (h <$> slice l (Z.to_nat i) (Z.to_nat (i + k))).
Proof.
  intros Hi Hk Hlen. rewrite <- comprehension_slice by lia.
  unfold range, range2. rewrite Z.sub_0_r.
  replace (i + k - i) with k by lia.
  replace (seqZ i k) with (Z.add i <$> seqZ 0 k)
    by (by rewrite fmap_add_seqZ, Z.add_0_r).
  rewrite comprehension_fmap. reflexivity.
Qed.

Lemma merged_window (p : Z) (bl : list (Z * TextBound)) (n k : nat)
    (x y : Z * TextBound) :
  (1 ≤ k)%nat → (n + k ≤ length bl)%nat →
  bl !! n = Some x → bl !! (n + k - 1)%nat = Some y →
  merged p (slice (snd <$> bl) n (n + k)) =
  Some {| text := window_text_of (slice (snd <$> bl) n (n + k));
          x0 := x0 x.2; y0 := y0 x.2; x1 := x1 y.2; y1 := y1 y.2; page := p |}.
Proof.
  intros Hk Hlen Hx Hy. unfold merged.
  rewrite head_lookup, last_lookup, length_slice
    by (rewrite length_fmap; lia).
  rewrite !slice_lookup by lia. rewrite !list_lookup_fmap.
  replace (n + 0)%nat with n by lia.
  replace (n + pred (n + k - n))%nat with (n + k - 1)%nat by lia.
  rewrite Hx, Hy. reflexivity.
Qed.

(** For a numeric threshold, an integer context window and an entity of at
    least one word, the loop body at a start index that leaves room for the
    window appends what the spec makes of that window. *)
Lemma contextual_window_spec (c : Z) (v : value) (th : Q) (e : string)
    (ew : list string) (p : Z) (bl : list (Z * TextBound)) (n : nat)
    (t : list MatchResult) :
  as_number v = Some th →
  (1 ≤ length ew)%nat →
  (n + length ew ≤ length bl)%nat →
  contextual_window (VInt c) v e ew p bl (Z.of_nat n) t
  = Ok (t ++ option_list
               (window_result c th e (length ew) p (snd <$> bl) n)).
Proof.
  intros Hv Hk Hlen. set (k := length ew) in *.
  destruct (lookup_lt_is_Some_2 bl n) as [x Hx]; [lia|].
  destruct (lookup_lt_is_Some_2 bl (n + k - 1)) as [y Hy]; [lia|].
  unfold contextual_window, window_result.
  rewrite comprehension_window by (unfold len; lia).
  rewrite bind_Ok_l.
  replace (Z.to_nat (Z.of_nat n)) with n by lia.
  replace (Z.to_nat (Z.of_nat n + len ew)) with (n + k)%nat by (unfold len; lia).
  assert (Hw : (λ b : Z * TextBound, lower (text b.2)) <$> slice bl n (n + k)
               = (λ tb, lower (text tb)) <$> slice (snd <$> bl) n (n + k))
    by (by rewrite slice_fmap, <- list_fmap_compose).
  rewrite Hw. fold (window_text_of (slice (snd <$> bl) n (n + k))).
  rewrite (ge_float_number _ _ _ Hv), bind_Ok_l.
  destruct (Qle_bool th _); [|by rewrite app_nil_r].
  cbn [int_sub int_add]. rewrite !bind_Ok_l, max_int, min_int.
  cbn [range_of]. rewrite bind_Ok_l.
  rewrite comprehension_slice by (unfold len; lia).
  rewrite bind_Ok_l, (getitem_lookup _ _ _ Hx), bind_Ok_l.
  replace (Z.of_nat n + len ew - 1) with (Z.of_nat (n + k - 1))
    by (unfold len; lia).
  rewrite (getitem_lookup _ _ _ Hy), bind_Ok_l.
  rewrite (merged_window p bl n k x y) by done.
  cbn [mbind option_bind]. unfold context_of, len.
  rewrite (slice_fmap snd bl (Z.to_nat _) (Z.to_nat _)).
  rewrite <- (list_fmap_compose snd text), length_fmap.
  reflexivity.
Qed.

Lemma window_result_Some (c : Z) (th : Q) (e : string) (k : nat) (p : Z)
    (group : list TextBound) (i : nat) (r : MatchResult) :
  window_result c th e k p group i = Some r →
  (th <= ratio (lower e) (window_text_of (slice group i (i + k))))%Q
  ∧ merged p (slice group i (i + k)) = Some (text_bound r)
  ∧ confidence r = ratio (lower e) (window_text_of (slice group i (i + k)))
  ∧ context r = Some (context_of c k group i).
Proof.
  unfold window_result. destruct (Qle_bool th _) eqn:E; [|discriminate].
  apply Qle_bool_iff in E.
  destruct (merged p _) as [b|]; [|discriminate].
  intros [= <-]. done.
Qed.

(** Whatever the configuration, a round of the loop body that returns has
    appended nothing or one result for its window. *)
Lemma contextual_window_emits (cw th : value) (e : string) (ew : list string)
    (p : Z) (bl : list (Z * TextBound)) (n : nat) (t t' : list MatchResult) :
  (1 ≤ length ew)%nat →
  (n + length ew ≤ length bl)%nat →
  contextual_window cw th e ew p bl (Z.of_nat n) t = Ok t' →
  t' = t ∨ ∃ r, t' = t ++ [r] ∧ emitted cw th e (length ew) p (snd <$> bl) n r.
Proof.
  intros Hk Hlen Hbody. set (k := length ew) in *.
  destruct (lookup_lt_is_Some_2 bl n) as [x Hx]; [lia|].
  destruct (lookup_lt_is_Some_2 bl (n + k - 1)) as [y Hy]; [lia|].
  pose proof Hbody as Hrun. unfold contextual_window in Hbody.
  rewrite comprehension_window in Hbody by (unfold len; lia).
  rewrite bind_Ok_l in Hbody.
  replace (Z.to_nat (Z.of_nat n)) with n in Hbody by lia.
  replace (Z.to_nat (Z.of_nat n + len ew)) with (n + k)%nat in Hbody
    by (unfold len; lia).
  assert (Hw : (λ b : Z * TextBound, lower (text b.2)) <$> slice bl n (n + k)
               = (λ tb, lower (text tb)) <$> slice (snd <$> bl) n (n + k))
    by (by rewrite slice_fmap, <- list_fmap_compose).
  rewrite Hw in Hbody. fold (window_text_of (slice (snd <$> bl) n (n + k))) in Hbody.
  apply bind_Ok in Hbody as ([] & Hkeep & Hbody); [|left; by injection Hbody].
  right. apply ge_float_true in Hkeep as (q & Hq & Hle).
  apply bind_Ok in Hbody as (lo & Hlo & Hbody).
  apply bind_Ok in Hbody as (hi & Hhi & Hbody).
  apply bind_Ok in Hbody as (js & Hjs & Hbody).
  apply bind_Ok in Hbody as (cs & Hcs & Hbody).
  rewrite (getitem_lookup _ _ _ Hx), bind_Ok_l in Hbody.
  replace (Z.of_nat n + len ew - 1) with (Z.of_nat (n + k - 1)) in Hbody
    by (unfold len; lia).
  rewrite (getitem_lookup _ _ _ Hy), bind_Ok_l in Hbody.
  injection Hbody as <-. eexists. split; [reflexivity|].
  unfold emitted. cbn [text_bound confidence context].
  split; [by rewrite (merged_window p bl n k x y)|].
  split; [reflexivity|]. split; [eauto|]. split; [eauto|].
  intros c ->. rewrite (contextual_window_spec c th q) in Hrun by done.
  injection Hrun as Hrun. apply app_inv_head in Hrun.
  destruct (window_result c q e (length ew) p bl.*2 n) as [r|] eqn:Er;
    [|discriminate].
  injection Hrun as Hrun. apply window_result_Some in Er as (_ & _ & _ & Hc).
  rewrite Hrun in Hc. exact Hc.
Qed.

(** ** The whole contextual search *)

Lemma omap_bind {A B} (f : A → option B) (l : list A) :
  omap f l = l ≫= (λ x, option_list (f x)).
Proof.
  induction l as [|x l IH]; [reflexivity|].
  rewrite bind_cons, <- IH. cbn [omap list_omap]. by destruct (f x).
Qed.

Lemma group_by_page_elem (tokens : list TextBound) (group : Z * list (Z * TextBound)) :
  group ∈ group_by_page tokens →
  group.1 ∈ first_pages tokens ∧ snd <$> group.2 = on_page group.1 tokens.
Proof.
  intros H. apply (list_elem_of_fmap_2 (map_group snd)) in H.
  rewrite group_by_page_spec in H.
  apply list_elem_of_fmap in H as (p & Heq & Hp).
  unfold map_group in Heq. injection Heq as -> ->. done.
Qed.

Lemma range_elem (m i : Z) : i ∈ range m → 0 ≤ i < m.
Proof. unfold range, range2. rewrite elem_of_seqZ. lia. Qed.

(** The inner loop over one page group, for a numeric threshold and an
    integer context window. *)
Lemma page_loop_spec (c : Z) (v : value) (th : Q) (e : string) (ew : list string)
    (p : Z) (bl : list (Z * TextBound)) (t : list MatchResult) :
  as_number v = Some th →
  (1 ≤ length ew)%nat →
  for_ (range (len bl - len ew + 1)) (contextual_window (VInt c) v e ew p bl) t
  = Ok (t ++ page_results c th e (length ew) p (snd <$> bl)).
Proof.
  intros Hv Hk.
  rewrite (for_appending
             (λ i, option_list
                     (window_result c th e (length ew) p (snd <$> bl) (Z.to_nat i)))).
  - do 2 f_equal. unfold page_results, range, range2, seqZ, len.
    rewrite omap_bind, list_fmap_bind, length_fmap.
    replace (Z.to_nat (Z.of_nat (length bl) - Z.of_nat (length ew) + 1 - 0))
      with (S (length bl) - length ew)%nat by lia.
    apply list_bind_ext; [|reflexivity]. intros i. cbn [compose].
    by replace (Z.to_nat (Z.of_nat i + 0)) with i by lia.
  - intros i u Hi%range_elem. unfold len in Hi.
    rewrite <- (Z2Nat.id i) at 1 by lia.
    apply contextual_window_spec; [done|done|lia].
Qed.

(** For a numeric threshold, an integer context window and an entity of at
    least one word, the search returns what the spec describes. *)
Lemma contextual_match_spec (c : Z) (v : value) (th : Q) (e : string)
    (tokens : list TextBound) :
  as_number v = Some th →
  (1 ≤ length (split (lower e)))%nat →
  contextual_match (VInt c) v e tokens = Ok (contextual_results c th e tokens).
Proof.
  intros Hv Hk. unfold contextual_match.
  rewrite (for_appending
             (λ group, page_results c th e (length (split (lower e)))
                                    group.1 (snd <$> group.2)))
    by (intros group t _; by apply page_loop_spec).
  cbn [app]. f_equal. unfold contextual_results.
  change (λ group : Z * list (Z * TextBound),
            page_results c th e (length (split (lower e))) group.1 (snd <$> group.2))
    with ((λ g : Z * list TextBound,
             page_results c th e (length (split (lower e))) g.1 g.2)
          ∘ map_group (snd : Z * TextBound → TextBound)).
  rewrite <- list_fmap_bind, group_by_page_spec, list_fmap_bind.
  reflexivity.
Qed.

(** Whatever the configuration, when the search returns, each result was
    emitted for a window that fits in the group of some page. *)
Lemma contextual_match_emitted (cw th : value) (e : string)
    (tokens : list TextBound) (rs : list MatchResult) :
  let k := length (split (lower e)) in
  (1 ≤ k)%nat →
  contextual_match cw th e tokens = Ok rs →
  Forall (λ r, ∃ p i, p ∈ first_pages tokens
                      ∧ (i + k ≤ length (on_page p tokens))%nat
                      ∧ emitted cw th e k p (on_page p tokens) i r) rs.
Proof.
  intros k Hk. unfold contextual_match. fold k.
  apply for_invariant; [constructor|].
  intros group t t' Hg Ht.
  apply group_by_page_elem in Hg as [Hp Hbl].
  apply for_invariant; [done|].
  intros i u u' Hi%range_elem Hu Hbody. unfold len in Hi.
  rewrite <- (Z2Nat.id i) in Hbody by lia.
  apply contextual_window_emits in Hbody as [->|(r & -> & Hr)]; [done| |done|lia].
  apply Forall_app. split; [done|]. constructor; [|constructor].
  exists group.1, (Z.to_nat i). rewrite <- Hbl. split; [done|].
  split; [rewrite length_fmap; lia | exact Hr].
Qed.

Lemma slice_subseteq {A} (l : list A) (a b : nat) : slice l a b ⊆ l.
Proof.
  unfold slice. etrans; [apply subseteq_take | apply subseteq_drop].
Qed.

Lemma slice_split {A} (l : list A) (i k : nat) :
  l = take i l ++ slice l i (i + k) ++ drop (i + k) l.
Proof.
  unfold slice. replace (i + k - i)%nat with k by lia.
  rewrite <- (drop_drop l k i), take_drop, take_drop. reflexivity.
Qed.

Lemma on_page_elem (p : Z) (tokens : list TextBound) (tb : TextBound) :
  tb ∈ on_page p tokens ↔ page tb = p ∧ tb ∈ tokens.
Proof. unfold on_page. by rewrite list_elem_of_filter. Qed.

(** C5. For an entity of at least one word, whatever the configuration,
    every result of the contextual strategy carries a bound built from a
    window of k tokens of one page: x0, y0 of the first token, x1, y1 of
    the last, the page of all of them, and as text their lower-cased texts
    joined by single spaces. *)
Theorem contextual_match_bound (cw th : value) (e : string)
    (tokens : list TextBound) (rs : list MatchResult) (r : MatchResult) :
  (1 ≤ length (split (lower e)))%nat →
  match_ (ContextualMatchingStrategy cw th) e tokens = Ok rs →
  r ∈ rs →
  ∃ (p : Z) (i : nat) (w : list TextBound) (first final : TextBound),
    w = slice (on_page p tokens) i (i + length (split (lower e)))
    ∧ length w = length (split (lower e))
    ∧ Forall (λ tb, tb ∈ tokens ∧ page tb = p) w
    ∧ head w = Some first
    ∧ last w = Some final
    ∧ x0 (text_bound r) = x0 first
    ∧ y0 (text_bound r) = y0 first
    ∧ x1 (text_bound r) = x1 final
    ∧ y1 (text_bound r) = y1 final
    ∧ page (text_bound r) = p
    ∧ text (text_bound r) = join " " ((λ tb, lower (text tb)) <$> w).
Proof.
  intros Hk Hm Hr. cbn [match_] in Hm.
  apply contextual_match_emitted in Hm; [|done].
  rewrite Forall_forall in Hm.
  destruct (Hm r Hr) as (p & i & _ & Hlen & Hb & _).
  unfold merged in Hb.
  destruct (head _) as [first|] eqn:Hh; [|discriminate].
  destruct (last _) as [final|] eqn:Hl; [|discriminate].
  injection Hb as Hb.
  exists p, i, (slice (on_page p tokens) i (i + length (split (lower e)))),
    first, final.
  split; [reflexivity|]. split; [rewrite length_slice by done; lia|].
  split.
  - apply Forall_forall. intros tb Htb%slice_subseteq%on_page_elem. tauto.
  - rewrite <- Hb. done.
Qed.

Lemma contextual_match_bound_witness :
  ∃ rs r,
    (1 ≤ length (split (lower "Hello World")))%nat
    ∧ match_ (ContextualMatchingStrategy (VInt 1) (VFloat 70))
             "Hello World" sample_prefix = Ok rs
    ∧ r ∈ rs
    ∧ ∃ (p : Z) (i : nat) (w : list TextBound) (first final : TextBound),
        w = slice (on_page p sample_prefix) i
                  (i + length (split (lower "Hello World")))
        ∧ length w = length (split (lower "Hello World"))
        ∧ Forall (λ tb, tb ∈ sample_prefix ∧ page tb = p) w
        ∧ head w = Some first
        ∧ last w = Some final
        ∧ x0 (text_bound r) = x0 first
        ∧ y0 (text_bound r) = y0 first
        ∧ x1 (text_bound r) = x1 final
        ∧ y1 (text_bound r) = y1 final
        ∧ page (text_bound r) = p
        ∧ text (text_bound r) = join " " ((λ tb, lower (text tb)) <$> w).
Proof.
  eexists _, _.
  assert (Hk : (1 ≤ length (split (lower "Hello World")))%nat)
    by (vm_compute; lia).
  assert (Hm : match_ (ContextualMatchingStrategy (VInt 1) (VFloat 70))
                 "Hello World" sample_prefix
               = Ok [ {| text_bound := token "hello world" 10 20 55 25 0;
                         confidence := 2200 # 22;
                         context := Some "Hello World Python" |} ])
    by (vm_compute; reflexivity).
  split; [exact Hk|]. split; [exact Hm|]. split; [apply list_elem_of_here|].
  apply (contextual_match_bound _ _ _ _ _ _ Hk Hm). apply list_elem_of_here.
Defined.

(** ** An entity without words *)

Lemma for_app {A S} (xs ys : list A) (body : A → S → result S) (s : S) :
  for_ (xs ++ ys) body s = for_ xs body s ≫= for_ ys body.
Proof.
  revert s. induction xs as [|x xs IH]; intros s; [reflexivity|].
  cbn [app for_]. destruct (body x s) as [s'|err]; [|reflexivity].
  rewrite !bind_Ok_l. apply IH.
Qed.

Lemma for_skip {A S} (xs : list A) (body : A → S → result S) (s : S) :
  (∀ x u, body x u = Ok u) → for_ xs body s = Ok s.
Proof.
  intros H. induction xs as [|x xs IH]; [reflexivity|].
  cbn [for_]. by rewrite H, bind_Ok_l.
Qed.

Lemma getitem_len {A} (l : list A) : getitem l (len l) = Raise IndexError.
Proof.
  unfold getitem, len.
  destruct (Z.ltb_spec (Z.of_nat (length l)) 0); [lia|].
  destruct (Z.ltb_spec (Z.of_nat (length l)) 0); [lia|].
  destruct (Z.leb_spec (Z.of_nat (length l)) (Z.of_nat (length l))); [|lia].
  reflexivity.
Qed.

Lemma comprehension_no_words {B} (f : Z → result B) :
  comprehension f (range (len (@nil string))) = Ok [].
Proof. reflexivity. Qed.

(** Without words the window is empty at every start index, and at the
    index [len(bounds_list)] a window that is kept reads past the end. *)
Lemma contextual_window_no_words_last (cw th : value) (e : string) (p : Z)
    (bl : list (Z * TextBound)) (u u' : list MatchResult) :
  contextual_window cw th e [] p bl (len bl) u = Ok u' →
  ge_float (ratio (lower e) EmptyString) th = Ok false.
Proof.
  unfold contextual_window. intros H.
  rewrite comprehension_no_words, bind_Ok_l in H.
  apply bind_Ok in H as ([] & Hkeep & H); [exfalso|exact Hkeep].
  apply bind_Ok in H as (lo & _ & H).
  apply bind_Ok in H as (hi & _ & H).
  apply bind_Ok in H as (js & _ & H).
  apply bind_Ok in H as (cs & _ & H).
  apply bind_Ok in H as (fb & Hfb & _).
  rewrite getitem_len in Hfb. discriminate.
Qed.

Lemma contextual_window_no_words_skip (cw th : value) (e : string) (p : Z)
    (bl : list (Z * TextBound)) (i : Z) (u : list MatchResult) :
  ge_float (ratio (lower e) EmptyString) th = Ok false →
  contextual_window cw th e [] p bl i u = Ok u.
Proof.
  intros H. unfold contextual_window.
  rewrite comprehension_no_words, bind_Ok_l.
  change (join " " []) with EmptyString. cbv zeta. rewrite H. reflexivity.
Qed.

Lemma page_loop_no_words (cw th : value) (e : string) (p : Z)
    (bl : list (Z * TextBound)) (t t' : list MatchResult) :
  for_ (range (len bl - len (@nil string) + 1))
       (contextual_window cw th e [] p bl) t = Ok t' →
  t' = t.
Proof.
  intros H. unfold range, range2 in H.
  replace (len bl - len (@nil string) + 1 - 0)
    with (Z.of_nat (S (length bl))) in H by (unfold len; simpl; lia).
  rewrite seqZ_S, for_app in H. apply bind_Ok in H as (u & Hu & Hlast).
  cbn [for_] in Hlast. apply bind_Ok in Hlast as (u' & Hbody & Hret).
  rewrite Z.add_0_l in Hbody. change (Z.of_nat (length bl)) with (len bl) in Hbody.
  pose proof (contextual_window_no_words_last _ _ _ _ _ _ _ Hbody) as Hkeep.
  rewrite contextual_window_no_words_skip in Hbody by done.
  rewrite for_skip in Hu
    by (intros; by apply contextual_window_no_words_skip).
  congruence.
Qed.

(** When the entity has no word and the search returns, it returns
    nothing. *)
Lemma contextual_match_no_words (cw th : value) (e : string)
    (tokens : list TextBound) (rs : list MatchResult) :
  length (split (lower e)) = 0%nat →
  contextual_match cw th e tokens = Ok rs → rs = [].
Proof.
  intros Hk. unfold contextual_match.
  destruct (split (lower e)) as [|w ws]; [|discriminate].
  apply (for_invariant (λ rs, rs = [])); [reflexivity|].
  intros group t t' _ -> H. by apply page_loop_no_words in H.
Qed.

(** C1, which the code does not meet. An entity without words does not
    always give the empty sequence: with the empty entity and the default
    threshold 70.0, or with a blank entity and the threshold 0.0, the empty
    window is kept, and the search over a single token raises
    [IndexError]. *)
Theorem contextual_match_no_words_raises :
  split (lower EmptyString) = []
  ∧ match_ (ContextualMatchingStrategy (VInt 3) (VFloat 70)) EmptyString
           [token "Hello" 10 20 30 25 0] = Raise IndexError
  ∧ split (lower " ") = []
  ∧ match_ (ContextualMatchingStrategy (VInt 3) (VFloat 0)) " "
           [token "Hello" 10 20 30 25 0] = Raise IndexError.
Proof.
  split; [reflexivity|]. split; [vm_compute; reflexivity|].
  split; [reflexivity|]. vm_compute; reflexivity.
Qed.

(** C6. For an integer context window c, every result of the contextual
    strategy belongs to a window start i of a page group, and its context
    is the original texts of the group's tokens at the indices
    max(0, i - c) up to min(n, i + k + c) exclusive, joined by spaces. *)
Theorem contextual_match_context (c : Z) (th : value) (e : string)
    (tokens : list TextBound) (rs : list MatchResult) (r : MatchResult) :
  match_ (ContextualMatchingStrategy (VInt c) th) e tokens = Ok rs →
  r ∈ rs →
  ∃ (p : Z) (i : nat),
    let k := length (split (lower e)) in
    let group := on_page p tokens in
    let n := length group in
    (i + k ≤ n)%nat
    ∧ merged p (slice group i (i + k)) = Some (text_bound r)
    ∧ context r =
      Some (join " "
              (text <$> slice group
                          (Z.to_nat (Z.max 0 (Z.of_nat i - c)))
                          (Z.to_nat (Z.min (Z.of_nat n)
                                           (Z.of_nat i + Z.of_nat k + c))))).
Proof.
  intros Hm Hr. cbn [match_] in Hm.
  destruct (decide (length (split (lower e)) = 0%nat)) as [E|E].
  - apply contextual_match_no_words in Hm; [|done]. subst rs.
    by apply not_elem_of_nil in Hr.
  - apply contextual_match_emitted in Hm; [|lia]. rewrite Forall_forall in Hm.
    destruct (Hm r Hr) as (p & i & _ & Hlen & Hb & _ & _ & _ & Hc).
    exists p, i. cbv zeta. split; [done|]. split; [done|].
    apply (Hc c eq_refl).
Qed.

Lemma contextual_match_context_witness :
  ∃ rs r,
    match_ (ContextualMatchingStrategy (VInt 1) (VFloat 90)) "Python"
           sample_text_bounds = Ok rs
    ∧ r ∈ rs
    ∧ context r = Some "World Python Programming"
    ∧ ∃ (p : Z) (i : nat),
        let k := length (split (lower "Python")) in
        let group := on_page p sample_text_bounds in
        let n := length group in
        (i + k ≤ n)%nat
        ∧ merged p (slice group i (i + k)) = Some (text_bound r)
        ∧ context r =
          Some (join " "
                  (text <$> slice group
                              (Z.to_nat (Z.max 0 (Z.of_nat i - 1)))
                              (Z.to_nat (Z.min (Z.of_nat n)
                                               (Z.of_nat i + Z.of_nat k + 1))))).
Proof.
  eexists _, _.
  assert (Hm : match_ (ContextualMatchingStrategy (VInt 1) (VFloat 90))
                 "Python" sample_text_bounds
               = Ok [ {| text_bound := token "python" 10 30 40 35 0;
                         confidence := 1200 # 12;
                         context := Some "World Python Programming" |} ])
    by (vm_compute; reflexivity).
  split; [exact Hm|]. split; [apply list_elem_of_here|].
  split; [reflexivity|].
  apply (contextual_match_context _ _ _ _ _ _ Hm). apply list_elem_of_here.
Defined.

(** ** Windows of the contextual search *)

Lemma merged_is_Some (p : Z) (w : list TextBound) :
  w ≠ [] → is_Some (merged p w).
Proof.
  intros Hw. unfold merged.
  destruct (proj2 (head_is_Some w) Hw) as [a ->].
  destruct (proj2 (last_is_Some w) Hw) as [b ->].
  by eexists.
Qed.

Lemma elem_of_contextual_results (c : Z) (th : Q) (e : string)
    (tokens : list TextBound) (r : MatchResult) :
  r ∈ contextual_results c th e tokens ↔
  ∃ p i, p ∈ first_pages tokens
         ∧ (i + length (split (lower e)) ≤ length (on_page p tokens))%nat
         ∧ window_result c th e (length (split (lower e))) p (on_page p tokens) i
           = Some r.
Proof.
  unfold contextual_results, page_results. rewrite list_elem_of_bind. split.
  - intros (p & (i & Hi & Hr)%list_elem_of_omap & Hp).
    apply elem_of_seq in Hi. exists p, i. split; [done|]. split; [lia|done].
  - intros (p & i & Hp & Hi & Hr). exists p. split; [|done].
    apply list_elem_of_omap. exists i. split; [|done]. apply elem_of_seq. lia.
Qed.

(** C7. For an entity of k >= 1 words, a numeric threshold and an integer
    context window, the contextual strategy returns, page by page in order
    of first occurrence and within a page by ascending start index, one
    result for every window of k consecutive tokens of that page whose
    score reaches the threshold, overlapping windows included; every result
    is such a window of a single page; and a page with fewer than k tokens
    gives none. *)
Theorem contextual_match_windows (c : Z) (v : value) (th : Q) (e : string)
    (tokens : list TextBound) (k : nat) :
  k = length (split (lower e)) →
  as_number v = Some th →
  (1 ≤ k)%nat →
  match_ (ContextualMatchingStrategy (VInt c) v) e tokens
  = Ok (p ← first_pages tokens;
        omap (window_result c th e k p (on_page p tokens))
             (seq 0 (S (length (on_page p tokens)) - k)))
  ∧ NoDup (first_pages tokens)
  ∧ (∀ p, p ∈ first_pages tokens ↔ ∃ tb, tb ∈ tokens ∧ page tb = p)
  ∧ (∀ r, r ∈ contextual_results c th e tokens →
       ∃ p i pre w post,
         on_page p tokens = pre ++ w ++ post
         ∧ length pre = i
         ∧ length w = k
         ∧ Forall (λ tb, tb ∈ tokens ∧ page tb = p) w
         ∧ window_result c th e k p (on_page p tokens) i = Some r
         ∧ text (text_bound r) = window_text_of w)
  ∧ (∀ p i, p ∈ first_pages tokens →
       (i + k ≤ length (on_page p tokens))%nat →
       (th <= ratio (lower e)
                    (window_text_of (slice (on_page p tokens) i (i + k))))%Q →
       ∃ r, window_result c th e k p (on_page p tokens) i = Some r
            ∧ r ∈ contextual_results c th e tokens)
  ∧ (∀ p, (length (on_page p tokens) < k)%nat →
       omap (window_result c th e k p (on_page p tokens))
            (seq 0 (S (length (on_page p tokens)) - k)) = []).
Proof.
  intros -> Hv Hk.
  split; [apply (contextual_match_spec c v th e tokens Hv Hk)|].
  split; [apply NoDup_first_pages|].
  split; [intros p; apply elem_of_first_pages|].
  split; [|split].
  - intros r (p & i & Hp & Hi & Hr)%elem_of_contextual_results.
    exists p, i, (take i (on_page p tokens)),
      (slice (on_page p tokens) i (i + length (split (lower e)))),
      (drop (i + length (split (lower e))) (on_page p tokens)).
    split; [apply slice_split|].
    split; [apply length_take_le; lia|].
    split; [rewrite length_slice by done; lia|].
    split; [|split; [done|]].
    + apply Forall_forall. intros tb Htb%slice_subseteq%on_page_elem. tauto.
    + apply window_result_Some in Hr as (_ & Hb & _).
      unfold merged in Hb.
      destruct (head _); [|discriminate]. destruct (last _); [|discriminate].
      injection Hb as <-. reflexivity.
  - intros p i Hp Hi Hth.
    assert (Hw : slice (on_page p tokens) i (i + length (split (lower e))) ≠ []).
    { intros E. apply (f_equal length) in E.
      rewrite length_slice in E by done. simpl in E. lia. }
    destruct (merged_is_Some p _ Hw) as [b Hb].
    eexists. split.
    + unfold window_result. apply Qle_bool_iff in Hth. rewrite Hth, Hb.
      reflexivity.
    + apply elem_of_contextual_results. exists p, i.
      split; [done|]. split; [done|].
      unfold window_result. apply Qle_bool_iff in Hth. rewrite Hth, Hb.
      reflexivity.
  - intros p Hlt.
    replace (S (length (on_page p tokens)) - length (split (lower e)))%nat
      with 0%nat by lia.
    reflexivity.
Qed.

Lemma contextual_match_windows_witness :
  (2%nat = length (split (lower "Hello World")))
  ∧ as_number (VFloat 70) = Some 70%Q
  ∧ (1 ≤ 2)%nat
  ∧ match_ (ContextualMatchingStrategy (VInt 1) (VFloat 70)) "Hello World"
           sample_prefix
    = Ok (p ← first_pages sample_prefix;
          omap (window_result 1 70 "Hello World" 2 p (on_page p sample_prefix))
               (seq 0 (S (length (on_page p sample_prefix)) - 2))).
Proof.
  assert (H1 : 2%nat = length (split (lower "Hello World"))) by reflexivity.
  assert (H2 : as_number (VFloat 70) = Some 70%Q) by reflexivity.
  assert (H3 : (1 ≤ 2)%nat) by lia.
  split; [exact H1|]. split; [exact H2|]. split; [exact H3|].
  exact (proj1 (contextual_match_windows 1 (VFloat 70) 70 "Hello World"
                  sample_prefix 2 H1 H2 H3)).
Defined.

(** ** Witnesses for the factory and the serialisation *)

Lemma create_strategy_name_witness :
  ((lower "bogus" ∉ keys strategies)
   ∧ ∃ msg, create_strategy "bogus" ∅ = Raise (ValueError msg)
       ∧ contains "bogus" msg
       ∧ contains (join ", " (keys strategies)) msg
       ∧ ∀ k, k ∈ keys strategies → contains k msg)
  ∧ (lower "FUZZY" ∈ keys strategies
     ∧ (∃ s, create_strategy "FUZZY" ∅ = Ok (Some s))
     ∧ ∀ name', lower name' = lower "FUZZY" →
         create_strategy name' ∅ = create_strategy "FUZZY" ∅).
Proof.
  assert (H1 : lower "bogus" ∉ keys strategies).
  { apply (bool_decide_unpack _). vm_compute. exact I. }
  assert (H2 : lower "FUZZY" ∈ keys strategies).
  { apply (bool_decide_unpack _). vm_compute. exact I. }
  split.
  - split; [exact H1|].
    exact (proj1 (create_strategy_name "bogus" ∅) H1).
  - split; [exact H2|].
    exact (proj1 (proj2 (create_strategy_name "FUZZY" ∅)) H2).
Defined.

Lemma create_strategy_defaults_witness :
  (lower "FUZZY" = "fuzzy"
   ∧ ∃ th, create_strategy "FUZZY" {[ "threshold" := VNone ]}
           = Ok (Some (FuzzyMatchingStrategy th))
       ∧ (∀ v, ({[ "threshold" := VNone ]} : gmap string value) !! "threshold"
               = Some v → th = v)
       ∧ (({[ "threshold" := VNone ]} : gmap string value) !! "threshold" = None
          → th = VFloat 80))
  ∧ (lower "Contextual" = "contextual"
     ∧ request_strategy "Contextual" VNone VNone
       = Ok (Some (ContextualMatchingStrategy VNone VNone))).
Proof.
  assert (H1 : lower "FUZZY" = "fuzzy") by reflexivity.
  assert (H2 : lower "Contextual" = "contextual") by reflexivity.
  split.
  - split; [exact H1|].
    exact (proj1 (create_strategy_defaults "FUZZY" {[ "threshold" := VNone ]}) H1).
  - split; [exact H2|].
    exact (proj2 (proj2 (proj2 (create_strategy_defaults "Contextual" ∅)))
             VNone VNone H2).
Defined.

Lemma to_dict_context_key_witness :
  context {| text_bound := token "Hello" 10 20 30 25 0; confidence := 100;
             context := Some EmptyString |} = Some EmptyString
  ∧ dom (to_dict {| text_bound := token "Hello" 10 20 30 25 0; confidence := 100;
                    context := Some EmptyString |})
    = {["match"; "confidence"]}.
Proof.
  split; [reflexivity|].
  refine (proj1 (proj2 (proj2 (to_dict_context_key _))) _). reflexivity.
Defined.

(** * Further properties of the code *)

(** ** The factory: all strategies at once *)



(** ** Serialisation of a bound *)

Lemma TextBound_to_dict_lookup (tb : TextBound) :
  TextBound_to_dict tb !! "text" = Some (VStr (text tb))
  ∧ TextBound_to_dict tb !! "x0" = Some (VFloat (x0 tb))
  ∧ TextBound_to_dict tb !! "y0" = Some (VFloat (y0 tb))
  ∧ TextBound_to_dict tb !! "x1" = Some (VFloat (x1 tb))
  ∧ TextBound_to_dict tb !! "y1" = Some (VFloat (y1 tb))
  ∧ TextBound_to_dict tb !! "page" = Some (VInt (page tb)).
Proof.
  unfold TextBound_to_dict.
  repeat split;
    repeat (rewrite lookup_insert_ne by discriminate);
    first [apply lookup_insert_eq | apply lookup_singleton_eq].
Qed.

(** X2. The dictionary of a bound has exactly the six keys "text", "x0",
    "y0", "x1", "y1", "page", and it determines the bound: two bounds with
    the same dictionary are equal. *)
Theorem TextBound_to_dict_inj (a b : TextBound) :
  dom (TextBound_to_dict a) = {["text"; "x0"; "y0"; "x1"; "y1"; "page"]}
  ∧ (TextBound_to_dict a = TextBound_to_dict b → a = b).
Proof.
  split.
  - unfold TextBound_to_dict. rewrite !dom_insert_L, dom_singleton_L.
    set_solver.
  - intros H.
    destruct (TextBound_to_dict_lookup a) as (A1 & A2 & A3 & A4 & A5 & A6).
    destruct (TextBound_to_dict_lookup b) as (B1 & B2 & B3 & B4 & B5 & B6).
    rewrite H in A1, A2, A3, A4, A5, A6.
    destruct a, b. simpl in *. congruence.
Qed.

Lemma TextBound_to_dict_inj_witness :
  TextBound_to_dict (token "Hello" 10 20 30 25 0)
  = TextBound_to_dict (token "Hello" 10 20 30 25 0)
  ∧ token "Hello" 10 20 30 25 0 = token "Hello" 10 20 30 25 0.
Proof.
  split; [reflexivity|].
  exact (proj2 (TextBound_to_dict_inj (token "Hello" 10 20 30 25 0)
                  (token "Hello" 10 20 30 25 0)) eq_refl).
Defined.

(** ** The single-token strategies *)

Lemma isspace_lower_char (c : ascii) : isspace (lower_char c) = isspace c.
Proof. destruct c as [[] [] [] [] [] [] [] []]; reflexivity. Qed.

Lemma has_space_lower (s : string) : has_space (lower s) = has_space s.
Proof.
  induction s as [|c s IH]; [reflexivity|].
  cbn [lower has_space]. by rewrite isspace_lower_char, IH.
Qed.

(** X3. The exact strategy never matches an entity that contains
    whitespace against tokens that contain none: a multi-word entity gives
    the empty sequence on single-word tokens. *)
Theorem exact_match_multi_word (e : string) (tokens : list TextBound) :
  has_space e = true →
  Forall (λ tb, has_space (text tb) = false) tokens →
  match_ ExactMatchingStrategy e tokens = Ok [].
Proof.
  intros He Htok. cbn [match_]. f_equal. rewrite exact_match_filter.
  induction Htok as [|tb tokens Htb _ IH]; [reflexivity|].
  rewrite filter_cons, decide_False; [exact IH|].
  intros Heq. apply (f_equal has_space) in Heq.
  rewrite !has_space_lower in Heq. congruence.
Qed.

Lemma exact_match_multi_word_witness :
  has_space "Python Programming" = true
  ∧ Forall (λ tb, has_space (text tb) = false) sample_text_bounds
  ∧ match_ ExactMatchingStrategy "Python Programming" sample_text_bounds = Ok [].
Proof.
  assert (H1 : has_space "Python Programming" = true) by reflexivity.
  assert (H2 : Forall (λ tb, has_space (text tb) = false) sample_text_bounds)
    by (repeat constructor).
  split; [exact H1|]. split; [exact H2|].
  exact (exact_match_multi_word _ _ H1 H2).
Defined.

Lemma filter_fmap {A B} (f : A → B) (P : B → Prop) `{!∀ y, Decision (P y)}
    (l : list A) :
  filter P (f <$> l) = f <$> filter (λ x, P (f x)) l.
Proof.
  induction l as [|x l IH]; [reflexivity|].
  rewrite fmap_cons, !filter_cons, IH. by destruct (decide (P (f x))).
Qed.

(** X4. For a numeric threshold of at most 100, the fuzzy results of
    confidence exactly 100.0 are, in order, the results of the exact
    strategy: the same bounds, no more and no fewer. *)
Theorem fuzzy_match_exact_hits (v : value) (th : Q) (e : string)
    (tokens : list TextBound) :
  as_number v = Some th →
  (th <= 100)%Q →
  ∃ rs, match_ (FuzzyMatchingStrategy v) e tokens = Ok rs
    ∧ text_bound <$> filter (λ r, (confidence r == 100)%Q) rs
      = text_bound <$> exact_match e tokens.
Proof.
  intros Hv Hth. eexists. split; [apply (fuzzy_match_number v th e tokens Hv)|].
  rewrite exact_match_filter, filter_fmap, list_filter_filter.
  rewrite <- !list_fmap_compose.
  rewrite (list_filter_iff _ (λ tb, lower (text tb) = lower e)).
  - apply list_fmap_ext. reflexivity.
  - intros tb. cbn [confidence token_result]. unfold token_score.
    rewrite ratio_100. split.
    + by intros [-> _].
    + intros H. split; [done|].
      assert (Hs : (ratio (lower e) (lower (text tb)) == 100)%Q)
        by (by apply ratio_100).
      by rewrite Hs.
Qed.

Lemma fuzzy_match_exact_hits_witness :
  as_number (VFloat 80) = Some 80%Q ∧ (80 <= 100)%Q
  ∧ ∃ rs, match_ (FuzzyMatchingStrategy (VFloat 80)) "hello" sample_text_bounds = Ok rs
      ∧ text_bound <$> filter (λ r, (confidence r == 100)%Q) rs
        = text_bound <$> exact_match "hello" sample_text_bounds.
Proof.
  assert (H1 : as_number (VFloat 80) = Some 80%Q) by reflexivity.
  assert (H2 : (80 <= 100)%Q) by (apply Qle_bool_iff; reflexivity).
  split; [exact H1|]. split; [exact H2|].
  exact (fuzzy_match_exact_hits _ _ "hello" sample_text_bounds H1 H2).
Defined.

(** X5. Raising a numeric threshold only removes fuzzy results: the
    results for the higher threshold are those for the lower one whose
    confidence reaches the higher, in the same order. *)
Theorem fuzzy_match_threshold_mono (v1 v2 : value) (th1 th2 : Q) (e : string)
    (tokens : list TextBound) :
  as_number v1 = Some th1 →
  as_number v2 = Some th2 →
  (th1 <= th2)%Q →
  ∃ rs1 rs2,
    match_ (FuzzyMatchingStrategy v1) e tokens = Ok rs1
    ∧ match_ (FuzzyMatchingStrategy v2) e tokens = Ok rs2
    ∧ rs2 = filter (λ r, (th2 <= confidence r)%Q) rs1
    ∧ rs2 `sublist_of` rs1.
Proof.
  intros H1 H2 Hle. eexists _, _.
  split; [apply (fuzzy_match_number v1 th1 e tokens H1)|].
  split; [apply (fuzzy_match_number v2 th2 e tokens H2)|].
  assert (Heq : (λ tb, token_result (token_score e tb) tb)
                  <$> filter (λ tb, (th2 <= token_score e tb)%Q) tokens
                = filter (λ r, (th2 <= confidence r)%Q)
                    ((λ tb, token_result (token_score e tb) tb)
                       <$> filter (λ tb, (th1 <= token_score e tb)%Q) tokens)).
  { rewrite filter_fmap, list_filter_filter. f_equal.
    apply list_filter_iff. intros tb. cbn [confidence token_result].
    split; [intros H; split; [done|by apply (Qle_trans _ th2)] | by intros [? _]]. }
  split; [exact Heq|]. rewrite Heq. apply sublist_filter.
Qed.

Lemma fuzzy_match_threshold_mono_witness :
  as_number (VInt 70) = Some (inject_Z 70) ∧ as_number (VFloat 95) = Some 95%Q
  ∧ (inject_Z 70 <= 95)%Q
  ∧ ∃ rs1 rs2,
      match_ (FuzzyMatchingStrategy (VInt 70)) "Wrold" sample_text_bounds = Ok rs1
      ∧ match_ (FuzzyMatchingStrategy (VFloat 95)) "Wrold" sample_text_bounds = Ok rs2
      ∧ rs2 = filter (λ r, (95 <= confidence r)%Q) rs1
      ∧ rs2 `sublist_of` rs1.
Proof.
  assert (H1 : as_number (VInt 70) = Some (inject_Z 70)) by reflexivity.
  assert (H2 : as_number (VFloat 95) = Some 95%Q) by reflexivity.
  assert (H3 : (inject_Z 70 <= 95)%Q) by (apply Qle_bool_iff; reflexivity).
  split; [exact H1|]. split; [exact H2|]. split; [exact H3|].
  exact (fuzzy_match_threshold_mono _ _ _ _ "Wrold" sample_text_bounds H1 H2 H3).
Defined.

Lemma fuzzy_match_type_error (v : value) (e : string) (tb : TextBound)
    (tokens : list TextBound) :
  as_number v = None →
  fuzzy_match v e (tb :: tokens) = Raise TypeError.
Proof. intros Hv. destruct v; try discriminate; reflexivity. Qed.

(** X6. A threshold that is not a number ([None], a string) makes the
    fuzzy strategy raise [TypeError] on the first token; on an empty token
    sequence nothing is compared and the result is empty whatever the
    threshold. *)
Theorem fuzzy_match_not_a_number (v : value) (e : string) (tb : TextBound)
    (tokens : list TextBound) :
  as_number v = None →
  match_ (FuzzyMatchingStrategy v) e (tb :: tokens) = Raise TypeError
  ∧ match_ (FuzzyMatchingStrategy v) e [] = Ok [].
Proof.
  intros Hv. split; [|reflexivity].
  cbn [match_]. by apply fuzzy_match_type_error.
Qed.

Lemma fuzzy_match_not_a_number_witness :
  as_number VNone = None
  ∧ match_ (FuzzyMatchingStrategy VNone) "World" sample_text_bounds = Raise TypeError.
Proof.
  split; [reflexivity|].
  exact (proj1 (fuzzy_match_not_a_number VNone "World" _ _ eq_refl)).
Defined.

(** ** Thresholds out of range and entities without words *)

Lemma filter_none {A} (P : A → Prop) `{!∀ x, Decision (P x)} (l : list A) :
  (∀ x, ¬ P x) → filter P l = [].
Proof.
  intros HP. induction l as [|x l IH]; [reflexivity|].
  by rewrite filter_cons, decide_False.
Qed.

Lemma for_skip_in {A S} (xs : list A) (body : A → S → result S) (s : S) :
  (∀ x u, x ∈ xs → body x u = Ok u) → for_ xs body s = Ok s.
Proof.
  intros H. induction xs as [|x xs IH]; [reflexivity|].
  cbn [for_]. rewrite H, bind_Ok_l by apply list_elem_of_here.
  apply IH. intros y u Hy. apply H. by apply list_elem_of_further.
Qed.

Lemma for_ok {A S} (xs : list A) (body : A → S → result S) (s : S) :
  (∀ x u, x ∈ xs → ∃ u', body x u = Ok u') → ∃ s', for_ xs body s = Ok s'.
Proof.
  revert s. induction xs as [|x xs IH]; intros s H; [by eexists|].
  cbn [for_]. destruct (H x s) as [u' ->]; [apply list_elem_of_here|].
  rewrite bind_Ok_l. apply IH. intros y u Hy. apply H.
  by apply list_elem_of_further.
Qed.

Lemma Qle_bool_false (x y : Q) : (y < x)%Q → Qle_bool x y = false.
Proof.
  intros H. destruct (Qle_bool x y) eqn:E; [|reflexivity].
  apply Qle_bool_iff in E. exfalso. by apply (Qlt_not_le _ _ H).
Qed.

(** A window that does not reach a numeric threshold leaves the results as
    they are, whatever the context window is. *)
Lemma contextual_window_below (cw v : value) (th : Q) (e : string)
    (ew : list string) (p : Z) (bl : list (Z * TextBound)) (i : Z)
    (u : list MatchResult) :
  as_number v = Some th →
  (100 < th)%Q →
  0 ≤ i → i + len ew ≤ len bl →
  contextual_window cw v e ew p bl i u = Ok u.
Proof.
  intros Hv Hth Hi Hlen. unfold contextual_window.
  rewrite comprehension_window by (unfold len in *; lia).
  rewrite bind_Ok_l, (ge_float_number _ _ _ Hv), bind_Ok_l.
  rewrite Qle_bool_false; [reflexivity|].
  eapply Qle_lt_trans; [apply ratio_range | exact Hth].
Qed.

(** X7. A numeric threshold above 100 silences the fuzzy and the
    contextual strategy: both return the empty sequence for every entity
    and every token sequence, and the contextual one does so whatever its
    context window holds, since no window is ever kept. *)
Theorem match_threshold_above_100 (v cw : value) (th : Q) (e : string)
    (tokens : list TextBound) :
  as_number v = Some th →
  (100 < th)%Q →
  match_ (FuzzyMatchingStrategy v) e tokens = Ok []
  ∧ match_ (ContextualMatchingStrategy cw v) e tokens = Ok [].
Proof.
  intros Hv Hth. split; cbn [match_].
  - rewrite (fuzzy_match_number v th e tokens Hv), filter_none; [reflexivity|].
    intros tb Hle. apply (Qlt_not_le _ _ Hth).
    eapply Qle_trans; [exact Hle | apply ratio_range].
  - unfold contextual_match. apply for_skip_in. intros group u _.
    apply for_skip_in. intros i t Hi%range_elem.
    apply (contextual_window_below cw v th); [done|done|lia|lia].
Qed.

Lemma match_threshold_above_100_witness :
  as_number (VFloat 101) = Some 101%Q ∧ (100 < 101)%Q
  ∧ match_ (FuzzyMatchingStrategy (VFloat 101)) "hello" sample_text_bounds = Ok []
  ∧ match_ (ContextualMatchingStrategy VNone (VFloat 101)) "hello"
           sample_text_bounds = Ok [].
Proof.
  assert (H1 : as_number (VFloat 101) = Some 101%Q) by reflexivity.
  assert (H2 : (100 < 101)%Q) by reflexivity.
  split; [exact H1|]. split; [exact H2|].
  exact (match_threshold_above_100 _ VNone _ "hello" sample_text_bounds H1 H2).
Defined.

Lemma getitem_in_range {A} (l : list A) (i : Z) :
  - len l ≤ i < len l → ∃ x, getitem l i = Ok x.
Proof.
  unfold len, getitem. intros Hi.
  destruct (Z.ltb_spec i 0) as [Hneg|Hpos].
  - destruct (Z.ltb_spec (i + Z.of_nat (length l)) 0); [lia|].
    destruct (Z.leb_spec (Z.of_nat (length l)) (i + Z.of_nat (length l))); [lia|].
    destruct (lookup_lt_is_Some_2 l (Z.to_nat (i + Z.of_nat (length l))))
      as [x ->]; [lia|]. by eexists.
  - destruct (Z.ltb_spec i 0); [lia|].
    destruct (Z.leb_spec (Z.of_nat (length l)) i); [lia|].
    destruct (lookup_lt_is_Some_2 l (Z.to_nat i)) as [x ->]; [lia|]. by eexists.
Qed.

(** Without words and with a window that is kept, every start index
    inside the group succeeds: the first bound is [bounds_list[i]] and the
    last one [bounds_list[i - 1]], which for [i = 0] is the last item. *)
Lemma contextual_window_no_words_inside (c : Z) (v : value) (e : string)
    (p : Z) (bl : list (Z * TextBound)) (i : Z) (u : list MatchResult) :
  ge_float (ratio (lower e) EmptyString) v = Ok true →
  0 ≤ i < len bl →
  ∃ u', contextual_window (VInt c) v e [] p bl i u = Ok u'.
Proof.
  intros Hkeep Hi. unfold contextual_window.
  rewrite comprehension_no_words, bind_Ok_l.
  change (join " " []) with EmptyString. cbv zeta. rewrite Hkeep, bind_Ok_l.
  cbn [int_sub int_add]. rewrite !bind_Ok_l, max_int, min_int.
  cbn [range_of]. rewrite bind_Ok_l.
  rewrite comprehension_slice by lia. rewrite bind_Ok_l.
  destruct (getitem_in_range bl i) as [x ->]; [lia|]. rewrite bind_Ok_l.
  destruct (getitem_in_range bl (i + len (@nil string) - 1)) as [y ->];
    [unfold len in *; simpl; lia|].
  rewrite bind_Ok_l. by eexists.
Qed.

(** At the start index [len(bounds_list)] the first bound is read past the
    end. *)
Lemma contextual_window_no_words_end (c : Z) (v : value) (e : string)
    (p : Z) (bl : list (Z * TextBound)) (u : list MatchResult) :
  ge_float (ratio (lower e) EmptyString) v = Ok true →
  contextual_window (VInt c) v e [] p bl (len bl) u = Raise IndexError.
Proof.
  intros Hkeep. unfold contextual_window.
  rewrite comprehension_no_words, bind_Ok_l.
  change (join " " []) with EmptyString. cbv zeta. rewrite Hkeep, bind_Ok_l.
  cbn [int_sub int_add]. rewrite !bind_Ok_l, max_int, min_int.
  cbn [range_of]. rewrite bind_Ok_l.
  rewrite comprehension_slice by (unfold len; lia). rewrite bind_Ok_l.
  rewrite getitem_len. reflexivity.
Qed.

Lemma group_by_page_nonempty (tb : TextBound) (tokens : list TextBound) :
  group_by_page (tb :: tokens) ≠ [].
Proof.
  intros E. pose proof (group_by_page_spec (tb :: tokens)) as H.
  rewrite E in H. discriminate.
Qed.

(** Without words, a window that is kept and a token to read: the first
    page group runs into the start index [len(bounds_list)]. *)
Lemma contextual_match_no_words_index_error (c : Z) (v : value) (th : Q)
    (e : string) (tokens : list TextBound) :
  split (lower e) = [] →
  as_number v = Some th →
  tokens ≠ [] →
  (th <= ratio (lower e) EmptyString)%Q →
  contextual_match (VInt c) v e tokens = Raise IndexError.
Proof.
  intros Hk Hv Htok Hth. unfold contextual_match. rewrite Hk.
  destruct tokens as [|tb tokens]; [done|].
  destruct (group_by_page (tb :: tokens)) as [|group groups] eqn:Eg;
    [by apply group_by_page_nonempty in Eg|].
  assert (Hkeep : ge_float (ratio (lower e) EmptyString) v = Ok true).
  { rewrite (ge_float_number _ _ _ Hv). f_equal. by apply Qle_bool_iff. }
  cbn [for_]. unfold range, range2.
  replace (len group.2 - len (@nil string) + 1 - 0)
    with (Z.of_nat (S (length group.2))) by (unfold len; simpl; lia).
  rewrite seqZ_S, for_app.
  destruct (for_ok (seqZ 0 (Z.of_nat (length group.2)))
              (contextual_window (VInt c) v e [] group.1 group.2) [])
    as [u ->].
  { intros i t Hi. apply contextual_window_no_words_inside; [done|].
    apply elem_of_seqZ in Hi. unfold len. lia. }
  rewrite bind_Ok_l. cbn [for_]. rewrite Z.add_0_l.
  change (Z.of_nat (length group.2)) with (len group.2).
  rewrite contextual_window_no_words_end by done. reflexivity.
Qed.

(** X8. The contextual strategy on an entity without words (empty or all
    whitespace), with a numeric threshold and an integer context window:
    when the score of the empty window against the entity stays below the
    threshold, or there are no tokens, the result is the empty sequence;
    when it reaches the threshold and there is a token, the call raises
    [IndexError]. *)
Theorem contextual_match_no_words_spec (c : Z) (v : value) (th : Q)
    (e : string) (tokens : list TextBound) :
  split (lower e) = [] →
  as_number v = Some th →
  (tokens = [] →
     match_ (ContextualMatchingStrategy (VInt c) v) e tokens = Ok [])
  ∧ (¬ (th <= ratio (lower e) EmptyString)%Q →
     match_ (ContextualMatchingStrategy (VInt c) v) e tokens = Ok [])
  ∧ (tokens ≠ [] → (th <= ratio (lower e) EmptyString)%Q →
     match_ (ContextualMatchingStrategy (VInt c) v) e tokens = Raise IndexError).
Proof.
  intros Hk Hv. cbn [match_].
  split; [|split].
  - intros ->. reflexivity.
  - intros Hth. unfold contextual_match. rewrite Hk.
    apply for_skip_in. intros group u _.
    apply for_skip. intros i t. apply contextual_window_no_words_skip.
    rewrite (ge_float_number _ _ _ Hv). f_equal.
    destruct (Qle_bool th _) eqn:E; [|reflexivity].
    by apply Qle_bool_iff in E.
  - intros Htok Hth. by apply (contextual_match_no_words_index_error c v th).
Qed.

Lemma contextual_match_no_words_spec_witness :
  split (lower " ") = [] ∧ as_number (VInt 0) = Some (inject_Z 0)
  ∧ sample_text_bounds ≠ []
  ∧ (inject_Z 0 <= ratio (lower " ") EmptyString)%Q
  ∧ match_ (ContextualMatchingStrategy (VInt 3) (VInt 0)) " " sample_text_bounds
    = Raise IndexError.
Proof.
  assert (H1 : split (lower " ") = []) by reflexivity.
  assert (H2 : as_number (VInt 0) = Some (inject_Z 0)) by reflexivity.
  assert (H3 : sample_text_bounds ≠ []) by discriminate.
  assert (H4 : (inject_Z 0 <= ratio (lower " ") EmptyString)%Q)
    by (apply Qle_bool_iff; reflexivity).
  split; [exact H1|]. split; [exact H2|]. split; [exact H3|]. split; [exact H4|].
  exact (proj2 (proj2 (contextual_match_no_words_spec 3 (VInt 0) _ " "
                         sample_text_bounds H1 H2)) H3 H4).
Defined.

(** ** Page groups and the number of windows *)

Lemma filter_all {A} (P : A → Prop) `{!∀ x, Decision (P x)} (l : list A) :
  (∀ x, x ∈ l → P x) → filter P l = l.
Proof.
  induction l as [|x l IH]; intros HP; [reflexivity|].
  rewrite filter_cons, decide_True by (apply HP, list_elem_of_here).
  f_equal. apply IH. intros y Hy. by apply HP, list_elem_of_further.
Qed.

Lemma bind_move {A B} `{EqDecision A} (f : A → list B) (q : A) (l : list A) :
  NoDup l → (q ∉ l → f q = []) →
  f q ++ (filter (λ p, p ≠ q) l ≫= f) ≡ₚ l ≫= f.
Proof.
  induction l as [|a l IH]; intros Hnd Hq.
  - rewrite Hq by apply not_elem_of_nil. reflexivity.
  - apply NoDup_cons in Hnd as [Ha Hnd]. rewrite filter_cons, bind_cons.
    destruct (decide (a = q)) as [->|Hne].
    + rewrite decide_False by tauto.
      rewrite filter_all; [reflexivity|]. intros p Hp ->. done.
    + rewrite decide_True by done. rewrite bind_cons.
      rewrite Permutation_app_swap_app. f_equiv. apply IH; [done|].
      intros Hq'. apply Hq. by intros [?|?]%elem_of_cons.
Qed.

Lemma bind_ext_in {A B} (f g : A → list B) (l : list A) :
  (∀ x, x ∈ l → f x = g x) → l ≫= f = l ≫= g.
Proof.
  induction l as [|a l IH]; intros H; [reflexivity|].
  rewrite !bind_cons, (H a) by apply list_elem_of_here.
  f_equal. apply IH. intros x Hx. by apply H, list_elem_of_further.
Qed.

(** Regrouping by page is a rearrangement of the tokens. *)
Lemma by_pages_Permutation (tokens : list TextBound) : by_pages tokens ≡ₚ tokens.
Proof.
  unfold by_pages. induction tokens as [|tb tokens IH]; [reflexivity|].
  cbn [first_pages]. rewrite bind_cons.
  unfold on_page at 1. rewrite filter_cons, decide_True by done.
  cbn [app]. f_equiv. fold (on_page (page tb) tokens).
  rewrite (bind_ext_in _ (λ p, on_page p tokens)).
  - etrans; [|exact IH].
    apply (bind_move (λ p, on_page p tokens) (page tb));
      [apply NoDup_first_pages|apply on_page_absent].
  - intros p [Hp _]%list_elem_of_filter. unfold on_page.
    by rewrite filter_cons, decide_False by congruence.
Qed.

(** X9. The page groups that the contextual strategy builds hold every
    token exactly once: the pages are distinct, no group is empty, a group
    holds the tokens of its page in input order, and the groups put end to
    end are a rearrangement of the input. *)
Theorem group_by_page_partition (tokens : list TextBound) :
  NoDup (fst <$> group_by_page tokens)
  ∧ (∀ g, g ∈ group_by_page tokens →
       g.2 ≠ [] ∧ snd <$> g.2 = filter (λ tb, page tb = g.1) tokens)
  ∧ (g ← group_by_page tokens; snd <$> g.2) ≡ₚ tokens.
Proof.
  pose proof (group_by_page_spec tokens) as Hspec.
  assert (Hfst : fst <$> group_by_page tokens = first_pages tokens).
  { transitivity (fst <$> (map_group snd <$> group_by_page tokens)).
    - rewrite <- list_fmap_compose. apply list_fmap_ext.
      intros _ [] _. reflexivity.
    - rewrite Hspec, <- list_fmap_compose.
      rewrite <- (list_fmap_id (first_pages tokens)) at 2.
      apply list_fmap_ext. intros _ q _. reflexivity. }
  split; [rewrite Hfst; apply NoDup_first_pages|]. split.
  - intros g Hg. destruct (group_by_page_elem _ _ Hg) as [Hp Heq].
    split; [|exact Heq]. intros E. rewrite E in Heq.
    apply elem_of_first_pages in Hp as (tb & Htb & Hpage).
    assert (Hin : tb ∈ on_page g.1 tokens) by (by apply on_page_elem).
    rewrite <- Heq in Hin. by apply not_elem_of_nil in Hin.
  - rewrite <- (by_pages_Permutation tokens) at 2. unfold by_pages.
    assert (Heq : (g ← group_by_page tokens; snd <$> g.2)
                  = (g ← map_group snd <$> group_by_page tokens; g.2)).
    { rewrite list_fmap_bind. reflexivity. }
    rewrite Heq, Hspec, list_fmap_bind. reflexivity.
Qed.

Lemma group_by_page_partition_witness :
  (0, [(0, token "Hello" 10 20 30 25 0); (1, token "World" 35 20 55 25 0);
       (2, token "Python" 10 30 40 35 0)]) ∈ group_by_page sample_prefix
  ∧ snd <$> [(0, token "Hello" 10 20 30 25 0); (1, token "World" 35 20 55 25 0);
             (2, token "Python" 10 30 40 35 0)]
    = filter (λ tb, page tb = 0) sample_prefix.
Proof.
  assert (H : (0, [(0, token "Hello" 10 20 30 25 0);
                   (1, token "World" 35 20 55 25 0);
                   (2, token "Python" 10 30 40 35 0)])
              ∈ group_by_page sample_prefix) by apply list_elem_of_here.
  split; [exact H|].
  exact (proj2 (proj1 (proj2 (group_by_page_partition sample_prefix)) _ H)).
Defined.

Lemma length_omap_le {A B} (f : A → option B) (l : list A) :
  (length (omap f l) ≤ length l)%nat.
Proof.
  induction l as [|x l IH]; [reflexivity|].
  cbn [omap list_omap]. destruct (f x); simpl; lia.
Qed.

Lemma length_bind_le {A B C} (f : A → list B) (g : A → list C) (l : list A) :
  (∀ x, (length (f x) ≤ length (g x))%nat) →
  (length (l ≫= f) ≤ length (l ≫= g))%nat.
Proof.
  intros H. induction l as [|x l IH]; [reflexivity|].
  rewrite !bind_cons, !length_app. specialize (H x). lia.
Qed.

(** X10. For an entity of at least one word, a numeric threshold and an
    integer context window, the contextual strategy returns at most as
    many results as there are tokens. *)
Theorem contextual_match_count (c : Z) (v : value) (th : Q) (e : string)
    (tokens : list TextBound) :
  as_number v = Some th →
  (1 ≤ length (split (lower e)))%nat →
  ∃ rs, match_ (ContextualMatchingStrategy (VInt c) v) e tokens = Ok rs
    ∧ (length rs ≤ length tokens)%nat.
Proof.
  intros Hv Hk. eexists. split; [apply (contextual_match_spec c v th e tokens Hv Hk)|].
  rewrite <- (Permutation_length (by_pages_Permutation tokens)).
  unfold contextual_results, by_pages. apply length_bind_le. intros p.
  unfold page_results. etrans; [apply length_omap_le|].
  rewrite length_seq. lia.
Qed.

Lemma contextual_match_count_witness :
  as_number (VFloat 70) = Some 70%Q
  ∧ (1 ≤ length (split (lower "Hello World")))%nat
  ∧ ∃ rs, match_ (ContextualMatchingStrategy (VInt 1) (VFloat 70)) "Hello World"
                 sample_prefix = Ok rs
      ∧ (length rs ≤ length sample_prefix)%nat.
Proof.
  assert (H1 : as_number (VFloat 70) = Some 70%Q) by reflexivity.
  assert (H2 : (1 ≤ length (split (lower "Hello World")))%nat)
    by (vm_compute; lia).
  split; [exact H1|]. split; [exact H2|].
  exact (contextual_match_count 1 _ _ "Hello World" sample_prefix H1 H2).
Defined.

Lemma filter_bind {A B} (P : B → Prop) `{!∀ y, Decision (P y)}
    (f : A → list B) (l : list A) :
  filter P (l ≫= f) = l ≫= (λ x, filter P (f x)).
Proof.
  induction l as [|x l IH]; [reflexivity|].
  by rewrite !bind_cons, filter_app, IH.
Qed.

Lemma filter_omap {A B} (P : B → Prop) `{!∀ y, Decision (P y)}
    (f : A → option B) (l : list A) :
  filter P (omap f l)
  = omap (λ x, match f x with
               | Some y => if decide (P y) then Some y else None
               | None => None
               end) l.
Proof.
  induction l as [|x l IH]; [reflexivity|].
  cbn [omap list_omap]. destruct (f x) as [y|]; [|exact IH].
  rewrite filter_cons. destruct (decide (P y)); by rewrite IH.
Qed.

Lemma omap_ext {A B} (f g : A → option B) (l : list A) :
  (∀ x, f x = g x) → omap f l = omap g l.
Proof.
  intros H. induction l as [|x l IH]; [reflexivity|].
  cbn [omap list_omap]. by rewrite H, IH.
Qed.

(** X11. Raising a numeric threshold only removes contextual results: for
    an entity of at least one word, the results for the higher threshold
    are those for the lower one whose confidence reaches the higher, in the
    same order. *)
Theorem contextual_match_threshold_mono (c : Z) (v1 v2 : value) (th1 th2 : Q)
    (e : string) (tokens : list TextBound) :
  as_number v1 = Some th1 →
  as_number v2 = Some th2 →
  (th1 <= th2)%Q →
  (1 ≤ length (split (lower e)))%nat →
  ∃ rs1 rs2,
    match_ (ContextualMatchingStrategy (VInt c) v1) e tokens = Ok rs1
    ∧ match_ (ContextualMatchingStrategy (VInt c) v2) e tokens = Ok rs2
    ∧ rs2 = filter (λ r, (th2 <= confidence r)%Q) rs1
    ∧ rs2 `sublist_of` rs1.
Proof.
  intros H1 H2 Hle Hk. eexists _, _.
  split; [apply (contextual_match_spec c v1 th1 e tokens H1 Hk)|].
  split; [apply (contextual_match_spec c v2 th2 e tokens H2 Hk)|].
  assert (Heq : contextual_results c th2 e tokens
                = filter (λ r, (th2 <= confidence r)%Q)
                         (contextual_results c th1 e tokens)).
  { unfold contextual_results. rewrite filter_bind.
    apply bind_ext_in. intros p _. unfold page_results.
    rewrite filter_omap. apply omap_ext. intros i. unfold window_result.
    destruct (Qle_bool th2 _) eqn:E2.
    - apply Qle_bool_iff in E2.
      assert (E1 : Qle_bool th1
                     (ratio (lower e)
                        (window_text_of
                           (slice (on_page p tokens) i
                                  (i + length (split (lower e)))))) = true)
        by (apply Qle_bool_iff; by apply (Qle_trans _ th2)).
      rewrite E1. destruct (merged p _) as [b|]; [|reflexivity].
      cbn [mbind option_bind confidence]. by rewrite decide_True.
    - destruct (Qle_bool th1 _); [|reflexivity].
      destruct (merged p _) as [b|]; [|reflexivity].
      cbn [mbind option_bind confidence]. rewrite decide_False; [reflexivity|].
      rewrite <- Qle_bool_iff. congruence. }
  split; [exact Heq|]. rewrite Heq. apply sublist_filter.
Qed.

Lemma contextual_match_threshold_mono_witness :
  as_number (VFloat 70) = Some 70%Q ∧ as_number (VFloat 90) = Some 90%Q
  ∧ (70 <= 90)%Q
  ∧ (1 ≤ length (split (lower "Python")))%nat
  ∧ ∃ rs1 rs2,
      match_ (ContextualMatchingStrategy (VInt 1) (VFloat 70)) "Python"
             sample_text_bounds = Ok rs1
      ∧ match_ (ContextualMatchingStrategy (VInt 1) (VFloat 90)) "Python"
               sample_text_bounds = Ok rs2
      ∧ rs2 = filter (λ r, (90 <= confidence r)%Q) rs1
      ∧ rs2 `sublist_of` rs1.
Proof.
  assert (H1 : as_number (VFloat 70) = Some 70%Q) by reflexivity.
  assert (H2 : as_number (VFloat 90) = Some 90%Q) by reflexivity.
  assert (H3 : (70 <= 90)%Q) by (apply Qle_bool_iff; reflexivity).
  assert (H4 : (1 ≤ length (split (lower "Python")))%nat) by (vm_compute; lia).
  split; [exact H1|]. split; [exact H2|]. split; [exact H3|]. split; [exact H4|].
  exact (contextual_match_threshold_mono 1 _ _ _ _ "Python" sample_text_bounds
           H1 H2 H3 H4).
Defined.

(** ** The context of a contextual result *)

Lemma slice_app {A} (l : list A) (a m b : nat) :
  (a ≤ m)%nat → (m ≤ b)%nat → slice l a b = slice l a m ++ slice l m b.
Proof.
  intros Ham Hmb. unfold slice.
  replace (b - a)%nat with ((m - a) + (b - m))%nat by lia.
  rewrite <- take_take_drop, drop_drop.
  by replace (a + (m - a))%nat with m by lia.
Qed.

Lemma slice_whole {A} (l : list A) (a b : nat) :
  (a ≤ b)%nat → l = take a l ++ slice l a b ++ drop b l.
Proof.
  intros Hab. rewrite (slice_split l a (b - a)) at 1.
  by replace (a + (b - a))%nat with b by lia.
Qed.

(** X12. With an integer context window c >= 0, the context of a
    contextual result is the window itself with the tokens of its page
    just before and just after it: at most c on each side, and fewer than c
    only where the page group ends. *)
Theorem contextual_match_context_around (c : Z) (th : value) (e : string)
    (tokens : list TextBound) (rs : list MatchResult) (r : MatchResult) :
  0 ≤ c →
  match_ (ContextualMatchingStrategy (VInt c) th) e tokens = Ok rs →
  r ∈ rs →
  ∃ (p : Z) (pre before w after post : list TextBound),
    on_page p tokens = pre ++ before ++ w ++ after ++ post
    ∧ length w = length (split (lower e))
    ∧ merged p w = Some (text_bound r)
    ∧ (length before ≤ Z.to_nat c)%nat
    ∧ (length after ≤ Z.to_nat c)%nat
    ∧ ((length before < Z.to_nat c)%nat → pre = [])
    ∧ ((length after < Z.to_nat c)%nat → post = [])
    ∧ context r = Some (join " " (text <$> before ++ w ++ after)).
Proof.
  intros Hc Hm Hr. cbn [match_] in Hm.
  destruct (decide (length (split (lower e)) = 0%nat)) as [E|E].
  { apply contextual_match_no_words in Hm; [|done]. subst rs.
    by apply not_elem_of_nil in Hr. }
  apply contextual_match_emitted in Hm; [|lia]. rewrite Forall_forall in Hm.
  destruct (Hm r Hr) as (p & i & _ & Hlen & Hb & _ & _ & _ & Hctx).
  specialize (Hctx c eq_refl). unfold context_of in Hctx.
  set (k := length (split (lower e))) in *.
  set (g := on_page p tokens) in *.
  set (a := Z.to_nat (Z.max 0 (Z.of_nat i - c))) in *.
  set (b := Z.to_nat (Z.min (Z.of_nat (length g)) (Z.of_nat i + Z.of_nat k + c))) in *.
  assert (Ha : (a ≤ i)%nat) by (unfold a; lia).
  assert (Hb' : (i + k ≤ b ∧ b ≤ length g)%nat) by (unfold b; lia).
  exists p, (take a g), (slice g a i), (slice g i (i + k)), (slice g (i + k) b),
    (drop b g).
  split.
  { change (on_page p tokens) with g.
    etrans; [apply (slice_whole g a b); lia|].
    rewrite (slice_app g a i b), (slice_app g i (i + k) b) by lia.
    by rewrite <- !app_assoc. }
  split; [rewrite length_slice by lia; lia|].
  split; [exact Hb|].
  rewrite !length_slice by lia.
  split; [unfold a; lia|]. split; [unfold b; lia|].
  split; [intros H; replace a with 0%nat by (unfold a in *; lia); reflexivity|].
  split.
  { intros H. replace b with (length g) by (unfold b in *; lia).
    apply drop_all. }
  rewrite Hctx. do 3 f_equal.
  by rewrite (slice_app g a i b), (slice_app g i (i + k) b) by lia.
Qed.

Lemma contextual_match_context_around_witness :
  ∃ rs r,
    0 ≤ 1
    ∧ match_ (ContextualMatchingStrategy (VInt 1) (VFloat 90)) "Python"
             sample_text_bounds = Ok rs
    ∧ r ∈ rs
    ∧ ∃ (p : Z) (pre before w after post : list TextBound),
        on_page p sample_text_bounds = pre ++ before ++ w ++ after ++ post
        ∧ length w = length (split (lower "Python"))
        ∧ merged p w = Some (text_bound r)
        ∧ (length before ≤ Z.to_nat 1)%nat
        ∧ (length after ≤ Z.to_nat 1)%nat
        ∧ ((length before < Z.to_nat 1)%nat → pre = [])
        ∧ ((length after < Z.to_nat 1)%nat → post = [])
        ∧ context r = Some (join " " (text <$> before ++ w ++ after)).
Proof.
  eexists _, _.
  assert (Hc : 0 ≤ 1) by lia.
  assert (Hm : match_ (ContextualMatchingStrategy (VInt 1) (VFloat 90))
                 "Python" sample_text_bounds
               = Ok [ {| text_bound := token "python" 10 30 40 35 0;
                         confidence := 1200 # 12;
                         context := Some "World Python Programming" |} ])
    by (vm_compute; reflexivity).
  split; [exact Hc|]. split; [exact Hm|]. split; [apply list_elem_of_here|].
  apply (contextual_match_context_around _ _ _ _ _ _ Hc Hm).
  apply list_elem_of_here.
Defined.

(** ** A one-word entity: the contextual and the fuzzy strategy *)

Lemma omap_seq_lookup {A B} (F : nat → option B) (H : A → option B) (l : list A) :
  (∀ i x, l !! i = Some x → F i = H x) →
  omap F (seq 0 (length l)) = omap H l.
Proof.
  induction l as [|y l IH] using rev_ind; intros HF; [reflexivity|].
  rewrite length_app. cbn [length]. rewrite Nat.add_1_r, seq_S, !omap_app.
  cbn [Nat.add].
  rewrite IH by (intros i x Hx; apply HF; by apply lookup_app_l_Some).
  f_equal. cbn [omap list_omap]. rewrite (HF (length l) y); [reflexivity|].
  by rewrite list_lookup_middle.
Qed.

Lemma omap_filter_fmap {A B} (P : A → Prop) `{!∀ x, Decision (P x)}
    (f : A → B) (l : list A) :
  omap (λ x, if decide (P x) then Some (f x) else None) l = f <$> filter P l.
Proof.
  induction l as [|x l IH]; [reflexivity|].
  cbn [omap list_omap]. rewrite filter_cons, IH.
  by destruct (decide (P x)).
Qed.

Lemma fmap_bind {A B C} (f : B → C) (g : A → list B) (l : list A) :
  f <$> (l ≫= g) = l ≫= (λ x, f <$> g x).
Proof.
  induction l as [|x l IH]; [reflexivity|].
  by rewrite !bind_cons, fmap_app, IH.
Qed.

Lemma slice_one {A} (l : list A) (i : nat) (x : A) :
  l !! i = Some x → slice l i (i + 1) = [x].
Proof.
  intros Hx. unfold slice. replace (i + 1 - i)%nat with 1%nat by lia.
  by rewrite (drop_S _ _ _ Hx).
Qed.

(** The results of one page for a one-word entity, read as pairs of bound
    and confidence. *)
Lemma page_results_single_word (c : Z) (th : Q) (e : string) (p : Z)
    (g : list TextBound) :
  Forall (λ tb, page tb = p) g →
  (λ r, (text_bound r, confidence r)) <$> page_results c th e 1 p g
  = (λ tb, (lowered tb, token_score e tb))
      <$> filter (λ tb, (th <= token_score e tb)%Q) g.
Proof.
  intros Hg. unfold page_results.
  replace (S (length g) - 1)%nat with (length g) by lia.
  rewrite list_fmap_omap, <- omap_filter_fmap.
  apply omap_seq_lookup. intros i x Hx.
  assert (Hp : page x = p).
  { rewrite Forall_forall in Hg. apply Hg. by eapply list_elem_of_lookup_2. }
  unfold window_result. rewrite (slice_one _ _ _ Hx).
  change (window_text_of [x]) with (lower (text x)).
  fold (token_score e x).
  destruct (Qle_bool th (token_score e x)) eqn:E.
  - rewrite decide_True by (by apply Qle_bool_iff).
    cbn. unfold lowered. by rewrite Hp.
  - rewrite decide_False; [reflexivity|].
    rewrite <- Qle_bool_iff. congruence.
Qed.

(** X13. For an entity of exactly one word, a numeric threshold and an
    integer context window, the contextual strategy finds what the fuzzy
    strategy finds on the tokens taken page by page: the same tokens with
    the same confidences in the same order, each bound being the token's
    with its text lower-cased. *)
Theorem contextual_match_single_word (c : Z) (v : value) (th : Q) (e : string)
    (tokens : list TextBound) :
  as_number v = Some th →
  length (split (lower e)) = 1%nat →
  ∃ rs_c rs_f,
    match_ (ContextualMatchingStrategy (VInt c) v) e tokens = Ok rs_c
    ∧ match_ (FuzzyMatchingStrategy v) e (by_pages tokens) = Ok rs_f
    ∧ (λ r, (text_bound r, confidence r)) <$> rs_c
      = (λ r, (lowered (text_bound r), confidence r)) <$> rs_f.
Proof.
  intros Hv Hk. eexists _, _.
  split; [apply (contextual_match_spec c v th e tokens Hv); lia|].
  split; [apply (fuzzy_match_number v th e (by_pages tokens) Hv)|].
  unfold contextual_results, by_pages. rewrite Hk.
  rewrite filter_bind, !fmap_bind. apply bind_ext_in. intros p _.
  rewrite page_results_single_word.
  - rewrite <- list_fmap_compose. apply list_fmap_ext. reflexivity.
  - apply Forall_forall. intros tb Htb%on_page_elem. tauto.
Qed.

Lemma contextual_match_single_word_witness :
  as_number (VFloat 90) = Some 90%Q
  ∧ length (split (lower "Python")) = 1%nat
  ∧ ∃ rs_c rs_f,
      match_ (ContextualMatchingStrategy (VInt 3) (VFloat 90)) "Python"
             sample_text_bounds = Ok rs_c
      ∧ match_ (FuzzyMatchingStrategy (VFloat 90)) "Python"
               (by_pages sample_text_bounds) = Ok rs_f
      ∧ (λ r, (text_bound r, confidence r)) <$> rs_c
        = (λ r, (lowered (text_bound r), confidence r)) <$> rs_f.
Proof.
  assert (H1 : as_number (VFloat 90) = Some 90%Q) by reflexivity.
  assert (H2 : length (split (lower "Python")) = 1%nat) by reflexivity.
  split; [exact H1|]. split; [exact H2|].
  exact (contextual_match_single_word 3 _ _ "Python" sample_text_bounds H1 H2).
Defined.

(** ** What the strategies can raise *)

Lemma bind_Raise {A B} (m : result A) (f : A → result B) (e : exn) :
  m ≫= f = Raise e → m = Raise e ∨ ∃ x, m = Ok x ∧ f x = Raise e.
Proof. destruct m as [x|e']; simpl; [eauto|intros [= ->]; by left]. Qed.

Lemma for_raises {A S} (xs : list A) (body : A → S → result S) (s : S) (e : exn) :
  for_ xs body s = Raise e → ∃ x u, x ∈ xs ∧ body x u = Raise e.
Proof.
  revert s. induction xs as [|x xs IH]; intros s H; [discriminate|].
  cbn [for_] in H. apply bind_Raise in H as [H|(s' & _ & H)].
  - exists x, s. split; [apply list_elem_of_here|done].
  - destruct (IH _ H) as (y & u & Hy & Hu). exists y, u.
    split; [by apply list_elem_of_further|done].
Qed.

Lemma comprehension_raises {A B} (f : A → result B) (xs : list A) (e : exn) :
  comprehension f xs = Raise e → ∃ x, x ∈ xs ∧ f x = Raise e.
Proof.
  induction xs as [|x xs IH]; intros H; [discriminate|].
  cbn [comprehension] in H. apply bind_Raise in H as [H|(y & _ & H)].
  - exists x. split; [apply list_elem_of_here|done].
  - apply bind_Raise in H as [H|(ys & _ & H)]; [|discriminate].
    destruct (IH H) as (z & Hz & Hf). exists z.
    split; [by apply list_elem_of_further|done].
Qed.

Lemma getitem_raises {A} (l : list A) (i : Z) (e : exn) :
  getitem l i = Raise e → e = IndexError.
Proof.
  unfold getitem. destruct (_ || _); [by intros [= <-]|].
  destruct (l !! _); [discriminate|by intros [= <-]].
Qed.

Lemma ge_float_raises (x : Q) (v : value) (e : exn) :
  ge_float x v = Raise e → e = TypeError.
Proof. destruct v; simpl; intros [= <-]; reflexivity. Qed.

Lemma int_sub_raises (i : Z) (v : value) (e : exn) :
  int_sub i v = Raise e → e = TypeError.
Proof. destruct v; simpl; intros [= <-]; reflexivity. Qed.

Lemma int_add_raises (i : Z) (v : value) (e : exn) :
  int_add i v = Raise e → e = TypeError.
Proof. destruct v; simpl; intros [= <-]; reflexivity. Qed.

Lemma range_of_raises (a b : number) (e : exn) :
  range_of a b = Raise e → e = TypeError.
Proof. destruct a, b; simpl; intros [= <-]; reflexivity. Qed.

Lemma contextual_window_raises (cw th : value) (e : string) (ew : list string)
    (p : Z) (bl : list (Z * TextBound)) (i : Z) (u : list MatchResult)
    (err : exn) :
  contextual_window cw th e ew p bl i u = Raise err →
  err = IndexError ∨ err = TypeError.
Proof.
  unfold contextual_window. intros H.
  apply bind_Raise in H as [H|(ws & _ & H)].
  { apply comprehension_raises in H as (j & _ & H). left.
    apply bind_Raise in H as [H|(x & _ & H)];
      [by eapply getitem_raises|discriminate]. }
  apply bind_Raise in H as [H|([] & _ & H)];
    [right; by eapply ge_float_raises| |discriminate].
  apply bind_Raise in H as [H|(lo & _ & H)];
    [right; by eapply int_sub_raises|].
  apply bind_Raise in H as [H|(hi & _ & H)];
    [right; by eapply int_add_raises|].
  apply bind_Raise in H as [H|(js & _ & H)];
    [right; by eapply range_of_raises|].
  apply bind_Raise in H as [H|(cs & _ & H)].
  { apply comprehension_raises in H as (j & _ & H). left.
    apply bind_Raise in H as [H|(x & _ & H)];
      [by eapply getitem_raises|discriminate]. }
  apply bind_Raise in H as [H|(fb & _ & H)];
    [left; by eapply getitem_raises|].
  apply bind_Raise in H as [H|(lb & _ & H)];
    [left; by eapply getitem_raises|discriminate].
Qed.

Lemma fuzzy_match_raises (th : value) (e : string) (tokens : list TextBound)
    (err : exn) :
  fuzzy_match th e tokens = Raise err → err = TypeError.
Proof.
  unfold fuzzy_match. intros (tb & u & _ & H)%for_raises.
  apply bind_Raise in H as [H|([] & _ & H)];
    [by eapply ge_float_raises|discriminate|discriminate].
Qed.

Lemma match_raises_cases (self : MatchingStrategy) (e : string)
    (tokens : list TextBound) (err : exn) :
  match_ self e tokens = Raise err → err = IndexError ∨ err = TypeError.
Proof.
  intros H. destruct self as [|th|cw th]; cbn [match_] in H; [discriminate| |].
  - right. by eapply fuzzy_match_raises.
  - unfold contextual_match in H. apply for_raises in H as (g & u & _ & H).
    apply for_raises in H as (i & t & _ & H).
    by eapply contextual_window_raises.
Qed.

(** X14. The exact strategy never raises, and the only exceptions that the
    fuzzy and the contextual strategy can raise are [TypeError] and
    [IndexError], the fuzzy one [TypeError] only: no [match] raises
    [ValueError]. *)
Theorem match_raises (self : MatchingStrategy) (e : string)
    (tokens : list TextBound) (err : exn) :
  match_ self e tokens = Raise err →
  self ≠ ExactMatchingStrategy
  ∧ (err = IndexError ∨ err = TypeError)
  ∧ (∀ th, self = FuzzyMatchingStrategy th → err = TypeError).
Proof.
  intros H. split; [|split].
  - intros ->. discriminate.
  - by eapply match_raises_cases.
  - intros th ->. cbn [match_] in H. by eapply fuzzy_match_raises.
Qed.

Lemma match_raises_witness :
  match_ (FuzzyMatchingStrategy VNone) "World" sample_text_bounds = Raise TypeError
  ∧ FuzzyMatchingStrategy VNone ≠ ExactMatchingStrategy
  ∧ (TypeError = IndexError ∨ TypeError = TypeError).
Proof.
  assert (H : match_ (FuzzyMatchingStrategy VNone) "World" sample_text_bounds
              = Raise TypeError) by reflexivity.
  split; [exact H|].
  destruct (match_raises _ _ _ _ H) as (H1 & H2 & _). split; [exact H1|exact H2].
Defined.

(** ** The match endpoint *)

Lemma request_strategy_exact (name : string) (th cw : value) :
  lower name = "exact" → request_strategy name th cw = Ok (Some ExactMatchingStrategy).
Proof. intros H. by apply create_strategy_exact. Qed.

Lemma request_strategy_fuzzy (name : string) (th cw : value) :
  lower name = "fuzzy" →
  request_strategy name th cw = Ok (Some (FuzzyMatchingStrategy th)).
Proof.
  intros H. unfold request_strategy.
  rewrite create_strategy_fuzzy by done. by rewrite lookup_insert_eq.
Qed.

Lemma request_strategy_contextual (name : string) (th cw : value) :
  lower name = "contextual" →
  request_strategy name th cw = Ok (Some (ContextualMatchingStrategy cw th)).
Proof.
  intros H. unfold request_strategy.
  rewrite create_strategy_contextual by done.
  rewrite lookup_insert_eq, lookup_insert_ne by done.
  by rewrite lookup_singleton_eq.
Qed.

Lemma request_strategy_known (name : string) (th cw : value) :
  lower name ∈ keys strategies →
  ∃ s, request_strategy name th cw = Ok (Some s).
Proof.
  intros H. unfold keys, strategies in H. cbn [fmap list_fmap fst] in H.
  apply elem_of_cons in H as [H|H]; [|apply elem_of_cons in H as [H|H]];
    [| |apply list_elem_of_singleton in H]; eexists.
  - by apply request_strategy_exact.
  - by apply request_strategy_fuzzy.
  - by apply request_strategy_contextual.
Qed.

(** X15. The status of the match endpoint. An unknown file id gives 404
    before anything else is looked at. For a stored file whose words were
    read, a strategy name that is not recognised gives 400 with the
    factory's message, which contains the name; a recognised name never
    gives 400: the outcome is the response, or 500 carrying an [IndexError]
    or a [TypeError] of the strategy. *)
Theorem match_entity_status (pdf_storage : gmap string string)
    (extract : string → list TextBound + handler_exn)
    (file_id : string) (request : MatchRequest.t) :
  (pdf_storage !! file_id = None →
     match_entity pdf_storage extract file_id request
     = HTTPException 404 (Detail "PDF file not found"))
  ∧ (∀ path tokens,
       pdf_storage !! file_id = Some path →
       extract path = inl tokens →
       (lower (MatchRequest.strategy request) ∉ keys strategies →
          ∃ msg, match_entity pdf_storage extract file_id request
                 = HTTPException 400 (Detail msg)
            ∧ contains (MatchRequest.strategy request) msg)
       ∧ (lower (MatchRequest.strategy request) ∈ keys strategies →
          ∀ code detail,
            match_entity pdf_storage extract file_id request
            = HTTPException code detail →
            code = 500
            ∧ ∃ err, detail = ErrorMatching (CoreError err)
                ∧ (err = IndexError ∨ err = TypeError))).
Proof.
  split.
  - intros H. unfold match_entity. by rewrite H.
  - intros path tokens Hs He. unfold match_entity. rewrite Hs, He. split.
    + intros Hname. unfold request_strategy.
      rewrite (create_strategy_unknown _ _ Hname).
      eexists. split; [reflexivity|]. apply contains_middle.
    + intros Hname code detail.
      destruct (request_strategy_known _ (MatchRequest.threshold request)
                  (MatchRequest.context_window request) Hname) as [s ->].
      destruct (match_ s _ tokens) as [rs|err] eqn:Em; [discriminate|].
      apply match_raises_cases in Em as Herr.
      destruct Herr as [-> | ->]; intros [= <- <-]; eauto.
Qed.

Lemma match_entity_status_witness :
  (({[ "tmp1" := "/tmp/tmp1.pdf" ]} : gmap string string) !! "tmp1"
   = Some "/tmp/tmp1.pdf")
  ∧ (λ _ : string, inl sample_text_bounds : list TextBound + handler_exn)
      "/tmp/tmp1.pdf" = inl sample_text_bounds
  ∧ (lower "bogus" ∉ keys strategies)
  ∧ ∃ msg,
      match_entity {[ "tmp1" := "/tmp/tmp1.pdf" ]} (λ _, inl sample_text_bounds)
                   "tmp1" (MatchRequest.make "hello" (Some "bogus") None None)
      = HTTPException 400 (Detail msg)
      ∧ contains "bogus" msg.
Proof.
  assert (H1 : ({[ "tmp1" := "/tmp/tmp1.pdf" ]} : gmap string string) !! "tmp1"
               = Some "/tmp/tmp1.pdf") by reflexivity.
  assert (H3 : lower "bogus" ∉ keys strategies).
  { apply (bool_decide_unpack _). vm_compute. exact I. }
  split; [exact H1|]. split; [reflexivity|]. split; [exact H3|].
  exact (proj1 (proj2 (match_entity_status {[ "tmp1" := "/tmp/tmp1.pdf" ]}
                         (λ _, inl sample_text_bounds) "tmp1"
                         (MatchRequest.make "hello" (Some "bogus") None None))
                  "/tmp/tmp1.pdf" sample_text_bounds H1 eq_refl) H3).
Defined.

(** X16. A response of the match endpoint echoes the file id, the entity
    and the strategy name of the request; its matches are the dictionaries
    of the results of the strategy built from the request, in order; each
    has the keys "match" and "confidence" and at most "context" besides;
    and [match_count] is their number. *)
Theorem match_entity_response (pdf_storage : gmap string string)
    (extract : string → list TextBound + handler_exn)
    (file_id : string) (request : MatchRequest.t)
    (fid ent name : string) (matches : list (gmap string entry)) (count : Z) :
  match_entity pdf_storage extract file_id request
  = MatchResponse fid ent name matches count →
  fid = file_id
  ∧ ent = MatchRequest.entity request
  ∧ name = MatchRequest.strategy request
  ∧ count = len matches
  ∧ Forall (λ d, ({["match"; "confidence"]} : gset string) ⊆ dom d
                 ∧ dom d ⊆ {["match"; "confidence"; "context"]}) matches
  ∧ ∃ path tokens s rs,
      pdf_storage !! file_id = Some path
      ∧ extract path = inl tokens
      ∧ request_strategy (MatchRequest.strategy request)
                         (MatchRequest.threshold request)
                         (MatchRequest.context_window request) = Ok (Some s)
      ∧ match_ s (MatchRequest.entity request) tokens = Ok rs
      ∧ matches = to_dict <$> rs.
Proof.
  unfold match_entity. intros H.
  destruct (pdf_storage !! file_id) as [path|] eqn:Hs; [|discriminate].
  destruct (extract path) as [tokens|e] eqn:He;
    [|destruct e as [[]| |]; discriminate].
  destruct (request_strategy _ _ _) as [[s|]|e] eqn:Hc;
    [| discriminate | destruct e; discriminate].
  destruct (match_ s _ tokens) as [rs|e] eqn:Hm; [|destruct e; discriminate].
  injection H as <- <- <- <- <-.
  split; [reflexivity|]. split; [reflexivity|]. split; [reflexivity|].
  split; [unfold len; by rewrite length_fmap|]. split.
  - apply Forall_fmap, Forall_forall. intros r _. cbn [compose].
    rewrite to_dict_dom.
    destruct (truthy (context r)); split;
      first [reflexivity | apply union_subseteq_l].
  - by exists path, tokens, s, rs.
Qed.

Lemma match_entity_response_witness :
  match_entity {[ "tmp1" := "/tmp/tmp1.pdf" ]} (λ _, inl sample_text_bounds)
               "tmp1" (MatchRequest.make "Python" None None None)
  = MatchResponse "tmp1" "Python" "exact"
      [to_dict (token_result 100 (token "Python" 10 30 40 35 0))] 1
  ∧ 1 = len [to_dict (token_result 100 (token "Python" 10 30 40 35 0))].
Proof.
  assert (H : match_entity {[ "tmp1" := "/tmp/tmp1.pdf" ]}
                (λ _, inl sample_text_bounds)
                "tmp1" (MatchRequest.make "Python" None None None)
              = MatchResponse "tmp1" "Python" "exact"
                  [to_dict (token_result 100 (token "Python" 10 30 40 35 0))] 1)
    by reflexivity.
  split; [exact H|].
  exact (proj1 (proj2 (proj2 (proj2 (match_entity_response _ _ _ _ _ _ _ _ _ H))))).
Defined.

(** X17. A request for the exact strategy on a stored, readable file
    always succeeds, whatever [threshold] and [context_window] hold: the
    matches are the tokens equal to the entity up to case, in document
    order, each with confidence 100.0 and without context. *)
Theorem match_entity_exact (pdf_storage : gmap string string)
    (extract : string → list TextBound + handler_exn)
    (file_id : string) (request : MatchRequest.t)
    (path : string) (tokens : list TextBound) :
  pdf_storage !! file_id = Some path →
  extract path = inl tokens →
  lower (MatchRequest.strategy request) = "exact" →
  match_entity pdf_storage extract file_id request
  = MatchResponse file_id (MatchRequest.entity request)
      (MatchRequest.strategy request)
      ((λ tb, {[ "match" := EDict (TextBound_to_dict tb);
                 "confidence" := EValue (VFloat 100) ]})
         <$> filter (λ tb, lower (text tb) = lower (MatchRequest.entity request))
                    tokens)
      (len (filter (λ tb, lower (text tb) = lower (MatchRequest.entity request))
                   tokens)).
Proof.
  intros Hs He Hname. unfold match_entity.
  rewrite Hs, He, (request_strategy_exact _ _ _ Hname). cbn [match_].
  rewrite exact_match_filter, <- list_fmap_compose.
  unfold len. rewrite length_fmap. reflexivity.
Qed.

Lemma match_entity_exact_witness :
  (({[ "tmp1" := "/tmp/tmp1.pdf" ]} : gmap string string) !! "tmp1"
   = Some "/tmp/tmp1.pdf")
  ∧ lower (MatchRequest.strategy (MatchRequest.make "hello" (Some "EXACT")
                                    (Some VNone) (Some VNone))) = "exact"
  ∧ match_entity {[ "tmp1" := "/tmp/tmp1.pdf" ]} (λ _, inl sample_text_bounds)
                 "tmp1"
                 (MatchRequest.make "hello" (Some "EXACT") (Some VNone) (Some VNone))
    = MatchResponse "tmp1" "hello" "EXACT"
        ((λ tb, {[ "match" := EDict (TextBound_to_dict tb);
                   "confidence" := EValue (VFloat 100) ]})
           <$> filter (λ tb, lower (text tb) = lower "hello") sample_text_bounds)
        (len (filter (λ tb, lower (text tb) = lower "hello") sample_text_bounds)).
Proof.
  assert (H1 : ({[ "tmp1" := "/tmp/tmp1.pdf" ]} : gmap string string) !! "tmp1"
               = Some "/tmp/tmp1.pdf") by reflexivity.
  assert (H2 : lower (MatchRequest.strategy
                        (MatchRequest.make "hello" (Some "EXACT")
                           (Some VNone) (Some VNone))) = "exact") by reflexivity.
  split; [exact H1|]. split; [exact H2|].
  exact (match_entity_exact {[ "tmp1" := "/tmp/tmp1.pdf" ]}
           (λ _, inl sample_text_bounds) "tmp1"
           (MatchRequest.make "hello" (Some "EXACT") (Some VNone) (Some VNone))
           "/tmp/tmp1.pdf" sample_text_bounds H1 eq_refl H2).
Defined.

(** X18. The threshold of a request that leaves the field out. The match
    endpoint always passes the request's threshold to the factory, so a
    contextual search requested without a threshold runs with the request
    model's default 80.0, whereas the factory called without a threshold
    gives the contextual strategy 70.0; the context window is 3 either
    way. *)
Theorem match_request_default_threshold (entity name : string) :
  lower name = "contextual" →
  request_strategy
    (MatchRequest.strategy (MatchRequest.make entity (Some name) None None))
    (MatchRequest.threshold (MatchRequest.make entity (Some name) None None))
    (MatchRequest.context_window (MatchRequest.make entity (Some name) None None))
  = Ok (Some (ContextualMatchingStrategy (VInt 3) (VFloat 80)))
  ∧ create_strategy name ∅
    = Ok (Some (ContextualMatchingStrategy (VInt 3) (VFloat 70))).
Proof.
  intros H. split.
  - cbn [MatchRequest.make MatchRequest.strategy MatchRequest.threshold
         MatchRequest.context_window default from_option id].
    by apply request_strategy_contextual.
  - by rewrite create_strategy_contextual.
Qed.

Lemma match_request_default_threshold_witness :
  lower "Contextual" = "contextual"
  ∧ create_strategy "Contextual" ∅
    = Ok (Some (ContextualMatchingStrategy (VInt 3) (VFloat 70))).
Proof.
  split; [reflexivity|].
  exact (proj2 (match_request_default_threshold "Python" "Contextual" eq_refl)).
Defined.

(** X19. Two requests that end in 500 on a stored, readable file with at
    least one word: a fuzzy search whose threshold is not a number (a JSON
    null) fails with [TypeError], and a contextual search for an entity
    without words, whose empty window reaches the numeric threshold, fails
    with [IndexError]. *)
Theorem match_entity_internal_error (pdf_storage : gmap string string)
    (extract : string → list TextBound + handler_exn)
    (file_id : string) (request : MatchRequest.t)
    (path : string) (tokens : list TextBound) :
  pdf_storage !! file_id = Some path →
  extract path = inl tokens →
  tokens ≠ [] →
  (lower (MatchRequest.strategy request) = "fuzzy" →
   as_number (MatchRequest.threshold request) = None →
   match_entity pdf_storage extract file_id request
   = HTTPException 500 (ErrorMatching (CoreError TypeError)))
  ∧ (∀ c th,
       lower (MatchRequest.strategy request) = "contextual" →
       split (lower (MatchRequest.entity request)) = [] →
       MatchRequest.context_window request = VInt c →
       as_number (MatchRequest.threshold request) = Some th →
       (th <= ratio (lower (MatchRequest.entity request)) EmptyString)%Q →
       match_entity pdf_storage extract file_id request
       = HTTPException 500 (ErrorMatching (CoreError IndexError))).
Proof.
  intros Hs He Htok. split.
  - intros Hname Hth. unfold match_entity.
    rewrite Hs, He, (request_strategy_fuzzy _ _ _ Hname).
    destruct tokens as [|tb tokens]; [done|].
    cbn [match_].
    rewrite (fuzzy_match_type_error _ (MatchRequest.entity request) tb tokens Hth).
    reflexivity.
  - intros c th Hname Hk Hcw Hth Hle. unfold match_entity.
    rewrite Hs, He, (request_strategy_contextual _ _ _ Hname), Hcw.
    cbn [match_].
    rewrite (contextual_match_no_words_index_error c _ th _ tokens Hk Hth Htok Hle).
    reflexivity.
Qed.

Lemma match_entity_internal_error_witness :
  (({[ "tmp1" := "/tmp/tmp1.pdf" ]} : gmap string string) !! "tmp1"
   = Some "/tmp/tmp1.pdf")
  ∧ sample_text_bounds ≠ []
  ∧ match_entity {[ "tmp1" := "/tmp/tmp1.pdf" ]} (λ _, inl sample_text_bounds)
                 "tmp1" (MatchRequest.make EmptyString (Some "contextual") None None)
    = HTTPException 500 (ErrorMatching (CoreError IndexError)).
Proof.
  assert (H1 : ({[ "tmp1" := "/tmp/tmp1.pdf" ]} : gmap string string) !! "tmp1"
               = Some "/tmp/tmp1.pdf") by reflexivity.
  assert (H3 : sample_text_bounds ≠ []) by discriminate.
  assert (H4 : (80 <= ratio (lower EmptyString) EmptyString)%Q)
    by (apply Qle_bool_iff; reflexivity).
  split; [exact H1|]. split; [exact H3|].
  exact (proj2 (match_entity_internal_error {[ "tmp1" := "/tmp/tmp1.pdf" ]}
                  (λ _, inl sample_text_bounds) "tmp1"
                  (MatchRequest.make EmptyString (Some "contextual") None None)
                  "/tmp/tmp1.pdf" sample_text_bounds H1 eq_refl H3)
           3 80%Q eq_refl eq_refl eq_refl eq_refl H4).
Defined.

(** ** The PDF extractor *)

Lemma fold_left_appending {A B} (f : A → list B) (l : list A) (acc : list B) :
  fold_left (λ acc x, acc ++ f x) l acc = acc ++ (l ≫= f).
Proof.
  revert acc. induction l as [|x l IH]; intros acc.
  - by rewrite app_nil_r.
  - cbn [fold_left]. rewrite IH, bind_cons. by rewrite <- app_assoc.
Qed.

Lemma fold_left_snoc_fmap {A B} (f : A → B) (l : list A) (acc : list B) :
  fold_left (λ acc x, acc ++ [f x]) l acc = acc ++ (f <$> l).
Proof.
  revert acc. induction l as [|x l IH]; intros acc.
  - by rewrite app_nil_r.
  - cbn [fold_left]. rewrite IH, fmap_cons. by rewrite <- app_assoc.
Qed.

Lemma extract_from (items : list (Z * list Word.t)) (acc : list TextBound) :
  fold_left
    (λ text_bounds item,
       fold_left (λ text_bounds word, text_bounds ++ [word_bound item.1 word])
                 item.2 text_bounds)
    items acc
  = acc ++ (item ← items; word_bound item.1 <$> item.2).
Proof.
  revert acc. induction items as [|item items IH]; intros acc.
  - by rewrite app_nil_r.
  - cbn [fold_left]. rewrite IH, bind_cons, app_assoc. f_equal.
    apply (fold_left_snoc_fmap (word_bound item.1)).
Qed.

(** The extractor's two loops as one comprehension. *)
Lemma extract_text_with_bounds_bind (pages : list (list Word.t)) :
  extract_text_with_bounds pages
  = item ← enumerate pages; word_bound item.1 <$> item.2.
Proof. apply (extract_from (enumerate pages) []). Qed.

Lemma enumerate_snoc {A} (l : list A) (x : A) :
  enumerate (l ++ [x]) = enumerate l ++ [(len l, x)].
Proof.
  unfold enumerate, len. rewrite length_app. cbn [length].
  rewrite Nat.add_1_r, seqZ_S, Z.add_0_l.
  rewrite zip_with_app by (rewrite length_seqZ; lia). reflexivity.
Qed.

Lemma extract_text_with_bounds_snoc (pages : list (list Word.t)) (ws : list Word.t) :
  extract_text_with_bounds (pages ++ [ws])
  = extract_text_with_bounds pages ++ (word_bound (len pages) <$> ws).
Proof.
  rewrite !extract_text_with_bounds_bind, enumerate_snoc, bind_app.
  f_equal. cbn [mbind list_bind fst snd]. apply app_nil_r.
Qed.

Lemma extract_text_with_bounds_elem (pages : list (list Word.t)) (tb : TextBound) :
  tb ∈ extract_text_with_bounds pages ↔
  ∃ (i : nat) ws w,
    pages !! i = Some ws ∧ w ∈ ws ∧ tb = word_bound (Z.of_nat i) w.
Proof.
  induction pages as [|ws pages IH] using rev_ind.
  - split; [by intros ?%not_elem_of_nil|].
    intros (i & ws & w & Hi & _). by rewrite lookup_nil in Hi.
  - rewrite extract_text_with_bounds_snoc, elem_of_app, IH, list_elem_of_fmap.
    split.
    + intros [(i & ws' & w & Hi & Hw & ->)|(w & -> & Hw)].
      * exists i, ws', w. split; [by apply lookup_app_l_Some|done].
      * exists (length pages), ws, w. split; [|done].
        by rewrite list_lookup_middle.
    + intros (i & ws' & w & Hi & Hw & ->).
      apply lookup_snoc_Some in Hi as [[Hlt Hi]|[-> ->]].
      * left. by exists i, ws', w.
      * right. by exists w.
Qed.

Lemma filter_none_in {A} (P : A → Prop) `{!∀ x, Decision (P x)} (l : list A) :
  (∀ x, x ∈ l → ¬ P x) → filter P l = [].
Proof.
  induction l as [|x l IH]; intros HP; [reflexivity|].
  rewrite filter_cons, decide_False by (apply HP, list_elem_of_here).
  apply IH. intros y Hy. by apply HP, list_elem_of_further.
Qed.

Lemma extracted_page_range (pages : list (list Word.t)) (tb : TextBound) :
  tb ∈ extract_text_with_bounds pages → 0 ≤ page tb < len pages.
Proof.
  intros (i & ws & w & Hi & _ & ->)%extract_text_with_bounds_elem.
  apply lookup_lt_Some in Hi. unfold len. cbn. lia.
Qed.

(** The bounds that carry page i are the words of page i. *)
Lemma extracted_on_page (pages : list (list Word.t)) (i : nat) (ws : list Word.t) :
  pages !! i = Some ws →
  on_page (Z.of_nat i) (extract_text_with_bounds pages)
  = word_bound (Z.of_nat i) <$> ws.
Proof.
  revert i ws. induction pages as [|ws pages IH] using rev_ind; intros i ws' Hi.
  - by rewrite lookup_nil in Hi.
  - rewrite extract_text_with_bounds_snoc. unfold on_page.
    rewrite filter_app.
    fold (on_page (Z.of_nat i) (extract_text_with_bounds pages)).
    apply lookup_snoc_Some in Hi as [[Hlt Hi]|[-> ->]].
    + rewrite (IH _ _ Hi), filter_none_in, app_nil_r; [reflexivity|].
      intros tb (w & -> & _)%list_elem_of_fmap. unfold len. cbn. lia.
    + unfold on_page. rewrite filter_none_in, filter_all; [reflexivity| |].
      * intros tb (w & -> & _)%list_elem_of_fmap. reflexivity.
      * intros tb Htb%extracted_page_range. unfold len in Htb. lia.
Qed.

(** X20. The extractor returns one bound per word of the document, page
    after page and within a page in the order of the words, each bound
    carrying the zero-based number of its page: the bounds of page i are
    exactly the words of page i, and the total is the number of words. *)
Theorem extract_text_with_bounds_pages (pages : list (list Word.t)) :
  length (extract_text_with_bounds pages) = sum_list (length <$> pages)
  ∧ (∀ tb, tb ∈ extract_text_with_bounds pages →
       0 ≤ page tb < len pages)
  ∧ (∀ (i : nat) ws, pages !! i = Some ws →
       on_page (Z.of_nat i) (extract_text_with_bounds pages)
       = word_bound (Z.of_nat i) <$> ws).
Proof.
  split; [|split; [apply extracted_page_range | apply extracted_on_page]].
  induction pages as [|ws pages IH] using rev_ind; [reflexivity|].
  rewrite extract_text_with_bounds_snoc, length_app, length_fmap, IH.
  rewrite fmap_app, sum_list_with_app. cbn. lia.
Qed.

Lemma extract_text_with_bounds_pages_witness :
  sample_pages !! 2%nat
  = Some [ {| Word.text := "World"; Word.x0 := 35; Word.top := 20;
              Word.x1 := 55; Word.bottom := 25 |} ]
  ∧ on_page 2 (extract_text_with_bounds sample_pages)
    = [token "World" 35 20 55 25 2].
Proof.
  assert (H : sample_pages !! 2%nat
              = Some [ {| Word.text := "World"; Word.x0 := 35; Word.top := 20;
                          Word.x1 := 55; Word.bottom := 25 |} ]) by reflexivity.
  split; [exact H|].
  exact (proj2 (proj2 (extract_text_with_bounds_pages sample_pages)) 2%nat _ H).
Defined.

(** X21. Over an extracted document the page groups of the contextual
    strategy are pages of the PDF: every group is keyed by the number of a
    page that has words and holds exactly the bounds of that page's words,
    in their order. *)
Theorem group_by_page_extracted (pages : list (list Word.t))
    (group : Z * list (Z * TextBound)) :
  group ∈ group_by_page (extract_text_with_bounds pages) →
  ∃ (i : nat) ws,
    pages !! i = Some ws
    ∧ ws ≠ []
    ∧ group.1 = Z.of_nat i
    ∧ snd <$> group.2 = word_bound (Z.of_nat i) <$> ws.
Proof.
  intros [Hp Hg]%group_by_page_elem.
  apply elem_of_first_pages in Hp as (tb & Htb & Hpage).
  apply extract_text_with_bounds_elem in Htb as (i & ws & w & Hi & Hw & ->).
  cbn in Hpage. exists i, ws. split; [done|]. split.
  - intros ->. by apply not_elem_of_nil in Hw.
  - split; [done|]. rewrite Hg, <- Hpage.
    by apply extracted_on_page.
Qed.

Lemma group_by_page_extracted_witness :
  ∃ group,
    group ∈ group_by_page (extract_text_with_bounds sample_pages)
    ∧ ∃ (i : nat) ws,
        sample_pages !! i = Some ws
        ∧ ws ≠ []
        ∧ group.1 = Z.of_nat i
        ∧ snd <$> group.2 = word_bound (Z.of_nat i) <$> ws.
Proof.
  eexists.
  assert (H : (0, [(0, token "Hello" 10 20 30 25 0)])
              ∈ group_by_page (extract_text_with_bounds sample_pages))
    by apply list_elem_of_here.
  split; [exact H|].
  exact (group_by_page_extracted _ _ H).
Defined.

(** ** The cleanup endpoint *)

(** X22. Cleaning up a stored file whose removal succeeds takes its id, and
    only its id, out of the storage: the match endpoint then answers 404
    for it, and answers for every other id as before. When the id is not
    stored (404) or the removal raises (500), the storage is left as it
    was. *)
Theorem cleanup_pdf_storage (pdf_storage : gmap string string)
    (remove : string → option handler_exn) (file_id : string) :
  (∀ path, pdf_storage !! file_id = Some path → remove path = None →
     (cleanup_pdf pdf_storage remove file_id).1
     = CleanupMessage "PDF file cleaned up successfully"
     ∧ (cleanup_pdf pdf_storage remove file_id).2 !! file_id = None
     ∧ (∀ extract request,
          match_entity (cleanup_pdf pdf_storage remove file_id).2 extract
                       file_id request
          = HTTPException 404 (Detail "PDF file not found"))
     ∧ (∀ other extract request, other ≠ file_id →
          match_entity (cleanup_pdf pdf_storage remove file_id).2 extract
                       other request
          = match_entity pdf_storage extract other request))
  ∧ (pdf_storage !! file_id = None →
     cleanup_pdf pdf_storage remove file_id
     = (CleanupException 404 (CleanupDetail "PDF file not found"), pdf_storage))
  ∧ (∀ path e, pdf_storage !! file_id = Some path → remove path = Some e →
     cleanup_pdf pdf_storage remove file_id
     = (CleanupException 500 (ErrorCleaningUp e), pdf_storage)).
Proof.
  split; [|split].
  - intros path Hs Hr. unfold cleanup_pdf. rewrite Hs, Hr. cbn [fst snd].
    split; [reflexivity|]. split; [apply lookup_delete_eq|]. split.
    + intros extract request. unfold match_entity.
      by rewrite lookup_delete_eq.
    + intros other extract request Hne. unfold match_entity.
      by rewrite lookup_delete_ne.
  - intros Hs. unfold cleanup_pdf. by rewrite Hs.
  - intros path e Hs Hr. unfold cleanup_pdf. by rewrite Hs, Hr.
Qed.

Lemma cleanup_pdf_storage_witness :
  (({[ "tmp1" := "/tmp/tmp1.pdf" ]} : gmap string string) !! "tmp1"
   = Some "/tmp/tmp1.pdf")
  ∧ (λ _ : string, @None handler_exn) "/tmp/tmp1.pdf" = None
  ∧ (cleanup_pdf {[ "tmp1" := "/tmp/tmp1.pdf" ]} (λ _, None) "tmp1").2 !! "tmp1"
    = None.
Proof.
  assert (H1 : ({[ "tmp1" := "/tmp/tmp1.pdf" ]} : gmap string string) !! "tmp1"
               = Some "/tmp/tmp1.pdf") by reflexivity.
  split; [exact H1|]. split; [reflexivity|].
  exact (proj1 (proj2 (proj1 (cleanup_pdf_storage {[ "tmp1" := "/tmp/tmp1.pdf" ]}
                                (λ _, None) "tmp1")
                         "/tmp/tmp1.pdf" H1 eq_refl))).
Defined.
